(** * offline-plugin: asset partitioning and path resolution

    A shallow embedding of [src/index.js] (class [OfflinePlugin]): the
    constructor, [setAssets] and [validatePaths], with the properties of
    the cache buckets they compute.

    JavaScript strings are modelled by [string]; one [ascii] stands for
    one code unit, so the model covers the names whose code units are
    below 256.  JavaScript objects used as maps are [gmap string _]. *)

From Stdlib Require Import Strings.String Strings.Ascii.
From stdpp Require Import base option list gmap strings.

(** ** Exceptions *)

(** A JavaScript computation either returns or throws [new Error(msg)]. *)
Inductive outcome (A : Type) : Type :=
  | Return (a : A)
  | Throw (msg : string).
Arguments Return {A} a.
Arguments Throw {A} msg.

#[global] Instance outcome_ret : MRet outcome := @Return.
#[global] Instance outcome_bind : MBind outcome := fun A B f m =>
  match m with
  | Return a => f a
  | Throw msg => Throw msg
  end.

(** [arr.some(f)] and [arr.reduce(f, init)] for a callback that may throw;
    the callbacks of [setAssets] never return a truthy value, so [some]
    visits every element. *)
Fixpoint forEach {S A : Type} (f : S -> A -> outcome S) (s : S) (l : list A)
  : outcome S :=
  match l with
  | [] => Return s
  | x :: l' => s' ← f s x; forEach f s' l'
  end.

(** ** String primitives *)

(** [key.replace(/^\//, '')] *)
Definition stripLeadingSlash (key : string) : string :=
  match key with
  | String c rest => if Ascii.eqb c "/" then rest else key
  | EmptyString => EmptyString
  end.

(** [scope.replace(/\/$/, '')] *)
Fixpoint stripTrailingSlash (scope : string) : string :=
  match scope with
  | EmptyString => EmptyString
  | String c EmptyString => if Ascii.eqb c "/" then EmptyString else scope
  | String c rest => String c (stripTrailingSlash rest)
  end.

(** The rest of [s] after the literal [pre], when [s] begins with it. *)
Fixpoint afterLiteral (pre s : string) : option string :=
  match pre, s with
  | EmptyString, _ => Some s
  | String a pre', String b s' =>
      if Ascii.eqb a b then afterLiteral pre' s' else None
  | String _ _, EmptyString => None
  end.

(** [s.indexOf(pre) === 0] *)
Definition startsWith (pre s : string) : bool :=
  match afterLiteral pre s with
  | Some _ => true
  | None => false
  end.

(** The code units that [.] of a regular expression refuses: LF and CR
    (U+2028 and U+2029 are outside the modelled range). *)
Definition isLineTerminator (c : ascii) : bool :=
  Ascii.eqb c "010" || Ascii.eqb c "013".

(** Does the whole of [s] match [index.htm(l?)$]? *)
Definition matchesIndexHtm (s : string) : bool :=
  match afterLiteral "index" s with
  | Some (String c rest) =>
      negb (isLineTerminator c) &&
      match afterLiteral "htm" rest with
      | Some tail => String.eqb tail "" || String.eqb tail "l"
      | None => false
      end
  | _ => false
  end.

(** The capture of the lazy group in [/^([\s\S]*?)index.htm(l?)$/]: the
    shortest prefix [dir] of the input after which the remainder matches.
    [seen] is the part of the input already given to the group. *)
Fixpoint lazyDir (seen s : string) : option string :=
  if matchesIndexHtm s then Some seen
  else match s with
       | EmptyString => None
       | String c s' => lazyDir (seen +:+ String c EmptyString) s'
       end.

(** [!!asset] for a string *)
Definition truthy (s : string) : bool := negb (String.eqb s "").

(** [arr.indexOf(x)], with [None] for -1 *)
Fixpoint indexOf (arr : list string) (x : string) : option nat :=
  match arr with
  | [] => None
  | y :: arr' => if String.eqb y x then Some 0 else S <$> indexOf arr' x
  end.

(** ** Configuration *)

(** An option of which the code asks only [Array.isArray]. *)
Inductive maybe_array : Type :=
  | IsArray (items : list string)
  | NotArray.

(** [options.caches]: a falsy value, the string ['all'], or anything else,
    read as an object with the keys [main], [additional], [optional]. *)
Inductive caches_option : Type :=
  | CachesFalsy
  | CachesAll
  | CachesObject (buckets : gmap string maybe_array).

(** [options.rewrites]: a falsy value, a function, or a lookup table.  A
    function is taken to return strings, [""] standing for every falsy
    result. *)
Inductive rewrites_option : Type :=
  | RewritesFalsy
  | RewritesFunction (f : string -> string)
  | RewritesTable (table : gmap string string).

Module Options.
(** [this.options], the result of [deepExtend({}, defaultOptions, options)];
    [version] plays no part in the buckets and is left out.  A tool option
    is [false] when the JavaScript value is [null] or [false]. *)
Record t : Type := mk {
  caches : caches_option;
  scope : string;
  updateStrategy : string;
  externals : maybe_array;
  excludes : maybe_array;
  relativePaths : bool;
  rewrites : rewrites_option;
  ServiceWorker : bool;
  AppCache : bool
}.
End Options.

Definition updateStrategies : list string := ["all"; "hash"; "changed"].

(** [defaultOptions.rewrites] *)
Definition defaultRewrites (asset : string) : string :=
  match lazyDir "" asset with
  | Some dir => if truthy dir then dir else "/"
  | None => asset
  end.

Definition defaultOptions : Options.t :=
  {| Options.caches := CachesAll;
     Options.scope := "/";
     Options.updateStrategy := "all";
     Options.externals := IsArray [];
     Options.excludes := IsArray [];
     Options.relativePaths := false;
     Options.rewrites := RewritesFunction defaultRewrites;
     Options.ServiceWorker := true;
     Options.AppCache := true |}.

Definition REST_KEY : string := ":rest:".
Definition entryPrefix : string := "__offline_".

(** ** The plugin object *)

Record OfflinePlugin : Type := {
  this_options : Options.t;
  this_assets : option (list string);
  this_scope : string;
  this_externals : list string;
  this_strategy : string;
  this_relativePaths : bool;
  this_rewrite : string -> string;
  this_caches : option (gmap string (list string));
  this_tools : list string
}.

(** [addTool(Tool, name)], the tools kept by name *)
Definition addTool (wanted : bool) (name : string) (tools : list string)
  : list string :=
  if wanted then tools ++ [name] else tools.

(** [this.rewrite], as the constructor builds it *)
Definition makeRewrite (rewrites : rewrites_option) (asset : string) : string :=
  match rewrites with
  | RewritesFalsy =>
      if startsWith entryPrefix asset then "" else defaultRewrites asset
  | RewritesFunction f =>
      if startsWith entryPrefix asset then "" else f asset
  | RewritesTable table =>
      if startsWith entryPrefix asset then ""
      else match table !! asset with
           | None => asset
           | Some target => target
           end
  end.

Definition constructor (options : Options.t) : outcome OfflinePlugin :=
  let scope := Options.scope options in
  let relativePaths := negb (truthy scope) || Options.relativePaths options in
  let scope := if relativePaths then "" else stripTrailingSlash scope +:+ "/" in
  if negb (bool_decide (Options.updateStrategy options ∈ updateStrategies))
  then Throw "Update strategy must be one of [all,hash,changed]"
  else
    let externals :=
      match Options.externals options with
      | IsArray items => items
      | NotArray => []
      end in
    let tools :=
      addTool (Options.AppCache options) "AppCache"
        (addTool (Options.ServiceWorker options) "ServiceWorker" []) in
    if bool_decide (tools = [])
    then Throw "You should have at least one cache service to be specified"
    else Return
      {| this_options := options;
         this_assets := None;
         this_scope := scope;
         this_externals := externals;
         this_strategy := Options.updateStrategy options;
         this_relativePaths := relativePaths;
         this_rewrite := makeRewrite (Options.rewrites options);
         this_caches := None;
         this_tools := tools |}.

(** The last [map] of [validatePaths] *)
Definition normalizePath (this : OfflinePlugin) (key : string) : string :=
  if this_relativePaths this then stripLeadingSlash key
  else this_scope this +:+ stripLeadingSlash key.

Definition validatePaths (this : OfflinePlugin) (assets : list string)
  : list string :=
  map (normalizePath this) (filter (fun asset => truthy asset = true)
                                   (map (this_rewrite this) assets)).

(** ** Partitioning *)

(** The variables shared by the callbacks of [setAssets]: the array
    [assets], spliced in place, [restSection] (a bucket name, hence truthy,
    once set) and [compilation.warnings]. *)
Record closure : Type := {
  assets : list string;
  restSection : option string;
  warnings : list string
}.

Definition patternWarning (cacheKey : string) : string :=
  "OfflinePlugin: Cache pattern [" +:+ cacheKey +:+ "] did not matched any assets".

Definition assetWarning (cacheKey : string) : string :=
  "OfflinePlugin: Cache asset [" +:+ cacheKey +:+ "] is not found in output assets".

(** The [for] loop over [assets] for one glob: [todo] is the part of the
    array from index [i] on; the third component is what the splices leave
    of it. *)
Fixpoint scanAssets (magic : string -> bool) (todo : list string)
    (matched : bool) (cacheResult : list string)
  : bool * list string * list string :=
  match todo with
  | [] => (matched, cacheResult, [])
  | asset :: todo' =>
      if magic asset then scanAssets magic todo' true (cacheResult ++ [asset])
      else
        let '(matched', cacheResult', kept) :=
          scanAssets magic todo' matched cacheResult in
        (matched', cacheResult', asset :: kept)
  end.

(** [Array.isArray(caches[key]) ? caches[key] : []] *)
Definition bucketSelectors (caches : gmap string maybe_array) (key : string)
  : list string :=
  match caches !! key with
  | Some (IsArray items) => items
  | _ => []
  end.

Section Engine.
(** [minimatch(path, pattern)] of the minimatch package and
    [hasMagic(pattern)] of [misc/has-magic]: the latter returns a falsy
    value or an object whose [match] method tests a path. *)
Variable minimatch : string -> string -> bool.
Variable hasMagic : string -> option (string -> bool).

(** The filter on [excludes] at the head of [setAssets] *)
Definition applyExcludes (excludes : maybe_array) (assets : list string)
  : list string :=
  match excludes with
  | IsArray (glob :: globs) =>
      filter (fun asset =>
                existsb (fun glob => minimatch asset glob) (glob :: globs) = false)
             assets
  | _ => assets
  end.

(** The callback of [cache.some] for the bucket [key] *)
Definition selectCacheKey (this : OfflinePlugin) (key : string)
    (st : closure * list string) (cacheKey : string)
  : outcome (closure * list string) :=
  let '(env, cacheResult) := st in
  if String.eqb cacheKey REST_KEY then
    match restSection env with
    | Some _ => Throw "The :rest: keyword can be used only once"
    | None =>
        Return ({| assets := assets env;
                   restSection := Some key;
                   warnings := warnings env |}, cacheResult)
    end
  else
    match hasMagic cacheKey with
    | Some magic =>
        let '(matched, cacheResult', assets') :=
          scanAssets magic (assets env) false cacheResult in
        Return ({| assets := assets';
                   restSection := restSection env;
                   warnings := if matched then warnings env
                               else warnings env ++ [patternWarning cacheKey] |},
                cacheResult')
    | None =>
        match indexOf (assets env) cacheKey with
        | None =>
            if negb (bool_decide (this_externals this = []))
               && bool_decide (cacheKey ∈ this_externals this)
            then Return (env, cacheResult ++ [cacheKey])
            else
              Return ({| assets := assets env;
                         restSection := restSection env;
                         warnings := warnings env ++ [assetWarning cacheKey] |},
                      cacheResult ++ [cacheKey])
        | Some index =>
            Return ({| assets := delete index (assets env);
                       restSection := restSection env;
                       warnings := warnings env |},
                    cacheResult ++ [cacheKey])
        end
    end.

(** The callback of the [reduce] over the bucket names; [validate] is
    [this.validatePaths]. *)
Definition reduceKey (this : OfflinePlugin)
    (validate : list string -> list string)
    (caches : gmap string maybe_array)
    (st : closure * gmap string (list string)) (key : string)
  : outcome (closure * gmap string (list string)) :=
  let '(env, result) := st in
  let cache := bucketSelectors caches key in
  match cache with
  | [] => Return (env, result)
  | _ =>
      '(env', cacheResult) ← forEach (selectCacheKey this key) (env, []) cache;
      Return (env', <[key := validate cacheResult]> result)
  end.

(** [if (restSection && assets.length)]: the remainder target takes what
    is left of the pool.  The target always has its key by then
    ([reduce_restSection] below), so the last case is never reached. *)
Definition appendRest (validate : list string -> list string)
    (env : closure) (handledCaches : gmap string (list string))
  : gmap string (list string) :=
  match restSection env, assets env with
  | Some rest, _ :: _ =>
      match handledCaches !! rest with
      | Some bucket =>
          <[rest := bucket ++ validate (assets env)]> handledCaches
      | None => handledCaches
      end
  | _, _ => handledCaches
  end.

(** The body of [setAssets] with [this.validatePaths] left open, which
    gives the buckets before rewriting and normalization at
    [validate := id]. *)
Definition setAssetsWith (validate : list string -> list string)
    (this : OfflinePlugin) (assets0 : list string) (warnings0 : list string)
  : outcome (OfflinePlugin * list string) :=
  let caches :=
    match Options.caches (this_options this) with
    | CachesFalsy => Options.caches defaultOptions
    | c => c
    end in
  let assets1 := applyExcludes (Options.excludes (this_options this)) assets0 in
  match caches with
  | CachesObject buckets =>
      '(env, handledCaches) ←
        forEach (reduceKey this validate buckets)
          ({| assets := assets1; restSection := None; warnings := warnings0 |}, ∅)
          ["main"; "additional"; "optional"];
      let handledCaches' := appendRest validate env handledCaches in
      Return ({| this_options := this_options this;
                 this_assets := Some (assets env);
                 this_scope := this_scope this;
                 this_externals := this_externals this;
                 this_strategy := this_strategy this;
                 this_relativePaths := this_relativePaths this;
                 this_rewrite := this_rewrite this;
                 this_caches := Some handledCaches';
                 this_tools := this_tools this |},
              warnings env)
  | _ =>
      Return ({| this_options := this_options this;
                 this_assets := Some assets1;
                 this_scope := this_scope this;
                 this_externals := this_externals this;
                 this_strategy := this_strategy this;
                 this_relativePaths := this_relativePaths this;
                 this_rewrite := this_rewrite this;
                 this_caches := Some {[ "main" := validate assets1 ]};
                 this_tools := this_tools this |},
              warnings0)
  end.

(** [setAssets(assets, compilation)]: the plugin after the call and
    [compilation.warnings] after it. *)
Definition setAssets (this : OfflinePlugin) (assets0 : list string)
    (warnings0 : list string) : outcome (OfflinePlugin * list string) :=
  setAssetsWith (validatePaths this) this assets0 warnings0.

(** The same run with the buckets kept as partitioned, before
    [validatePaths] rewrites and normalizes them. *)
Definition partitionAssets (this : OfflinePlugin) (assets0 : list string)
    (warnings0 : list string) : outcome (OfflinePlugin * list string) :=
  setAssetsWith (fun cacheResult => cacheResult) this assets0 warnings0.
End Engine.

(** ** A glob matcher for the examples *)

(** Modelled from the spec: the Glob Matcher (the minimatch package and
    [misc/has-magic] are not among the sources), for the fragment with [*]
    and [?] only: [*] stands for any run of characters other than the
    separator, [?] for one such character, every other character for
    itself.  The theorems take the matcher as a parameter; this one serves
    to run them on concrete inputs. *)
Fixpoint globMatch (pattern : string) : string -> bool :=
  match pattern with
  | EmptyString => fun path => String.eqb path ""
  | String p pattern' =>
      if Ascii.eqb p "*" then
        fix star (path : string) : bool :=
          globMatch pattern' path ||
          match path with
          | EmptyString => false
          | String c path' => negb (Ascii.eqb c "/") && star path'
          end
      else fun path =>
        match path with
        | EmptyString => false
        | String c path' =>
            (if Ascii.eqb p "?" then negb (Ascii.eqb c "/") else Ascii.eqb c p)
            && globMatch pattern' path'
        end
  end.

(** Modelled from the spec: a pattern with no glob metacharacter is a
    literal selector; here the metacharacters are [*] and [?]. *)
Fixpoint hasWildcard (pattern : string) : bool :=
  match pattern with
  | EmptyString => false
  | String p pattern' =>
      Ascii.eqb p "*" || Ascii.eqb p "?" || hasWildcard pattern'
  end.

(** Modelled from the spec: [minimatch(path, pattern)] on that fragment. *)
Definition globMinimatch (path pattern : string) : bool := globMatch pattern path.

(** Modelled from the spec: [hasMagic(pattern)] of [misc/has-magic] on that
    fragment. *)
Definition globHasMagic (pattern : string) : option (string -> bool) :=
  if hasWildcard pattern then Some (globMatch pattern) else None.

(** ** Vocabulary of the properties *)

Definition duplicateRest : string := "The :rest: keyword can be used only once".

(** How often the sentinel occurs among the selectors [cache]. *)
Definition isRest (cacheKey : string) : nat :=
  if String.eqb cacheKey REST_KEY then 1 else 0.

Definition restCount (cache : list string) : nat := sum_list (isRest <$> cache).

(** Whether a remainder target has been recorded. *)
Definition declared (restSection : option string) : nat :=
  match restSection with
  | Some _ => 1
  | None => 0
  end.

Definition bucketNames : list string := ["main"; "additional"; "optional"].

(** All the selectors of a bucket specification, in the order of the
    buckets. *)
Definition allSelectors (caches : gmap string maybe_array) : list string :=
  bucketSelectors caches "main" ++ bucketSelectors caches "additional"
  ++ bucketSelectors caches "optional".

(** [x] is an entry of the bucket [key] of the bucket map [m]. *)
Definition bucketEntry (m : gmap string (list string)) (key x : string) : Prop :=
  exists bucket, m !! key = Some bucket /\ x ∈ bucket.

(** Every entry of every bucket is one of [pool]. *)
Definition bucketsWithin (m : gmap string (list string)) (pool : list string)
  : Prop :=
  forall key x, bucketEntry m key x -> x ∈ pool.

(** No entry occurs in two different buckets. *)
Definition bucketsApart (m : gmap string (list string)) : Prop :=
  forall j k x, j <> k -> bucketEntry m j x -> ~ bucketEntry m k x.

Section Vocabulary.
Variable hasMagic : string -> option (string -> bool).

(** A literal selector: neither the sentinel nor a glob. *)
Definition isLiteral (cacheKey : string) : Prop :=
  cacheKey <> REST_KEY /\ hasMagic cacheKey = None.

(** [x] is a literal selector of the bucket [key] that was not in the pool
    when it was reached: it is an external, or one of the warnings [new]
    names it. *)
Definition passedThrough (this : OfflinePlugin)
    (caches : gmap string maybe_array) (new : list string)
    (key x : string) : Prop :=
  x ∈ bucketSelectors caches key /\ isLiteral x /\
  (x ∈ this_externals this \/ assetWarning x ∈ new).

(** What holds of the pool, the warnings and the buckets filled so far
    while a specification is processed; [pool0] is the pool and
    [warnings0] the warnings at the start. *)
Definition partitionInv (this : OfflinePlugin)
    (caches : gmap string maybe_array) (warnings0 pool0 : list string)
    (env : closure) (m : gmap string (list string)) : Prop :=
  exists new,
    warnings env = warnings0 ++ new /\
    assets env `sublist_of` pool0 /\
    (forall key x,
       bucketEntry m key x ->
       x ∈ pool0 \/ passedThrough this caches new key x) /\
    (NoDup pool0 ->
     forall key x, bucketEntry m key x -> x ∉ assets env) /\
    (NoDup pool0 ->
     forall j k x,
       j <> k -> bucketEntry m j x -> bucketEntry m k x ->
       passedThrough this caches new j x \/ passedThrough this caches new k x).
End Vocabulary.

(** The plugin [after] a run of [partitionAssets], with every bucket
    rewritten and normalized as [this.validatePaths] does. *)
Definition validated (this after : OfflinePlugin) : OfflinePlugin :=
  {| this_options := this_options after;
     this_assets := this_assets after;
     this_scope := this_scope after;
     this_externals := this_externals after;
     this_strategy := this_strategy after;
     this_relativePaths := this_relativePaths after;
     this_rewrite := this_rewrite after;
     this_caches :=
       (fun m : gmap string (list string) => validatePaths this <$> m)
         <$> this_caches after;
     this_tools := this_tools after |}.

(** ** Configurations of the examples *)

Definition withCaches (caches : caches_option) (o : Options.t) : Options.t :=
  {| Options.caches := caches;
     Options.scope := Options.scope o;
     Options.updateStrategy := Options.updateStrategy o;
     Options.externals := Options.externals o;
     Options.excludes := Options.excludes o;
     Options.relativePaths := Options.relativePaths o;
     Options.rewrites := Options.rewrites o;
     Options.ServiceWorker := Options.ServiceWorker o;
     Options.AppCache := Options.AppCache o |}.

Definition withScope (scope : string) (o : Options.t) : Options.t :=
  {| Options.caches := Options.caches o;
     Options.scope := scope;
     Options.updateStrategy := Options.updateStrategy o;
     Options.externals := Options.externals o;
     Options.excludes := Options.excludes o;
     Options.relativePaths := Options.relativePaths o;
     Options.rewrites := Options.rewrites o;
     Options.ServiceWorker := Options.ServiceWorker o;
     Options.AppCache := Options.AppCache o |}.

Definition withExternals (externals : maybe_array) (o : Options.t) : Options.t :=
  {| Options.caches := Options.caches o;
     Options.scope := Options.scope o;
     Options.updateStrategy := Options.updateStrategy o;
     Options.externals := externals;
     Options.excludes := Options.excludes o;
     Options.relativePaths := Options.relativePaths o;
     Options.rewrites := Options.rewrites o;
     Options.ServiceWorker := Options.ServiceWorker o;
     Options.AppCache := Options.AppCache o |}.

Definition withExcludes (excludes : maybe_array) (o : Options.t) : Options.t :=
  {| Options.caches := Options.caches o;
     Options.scope := Options.scope o;
     Options.updateStrategy := Options.updateStrategy o;
     Options.externals := Options.externals o;
     Options.excludes := excludes;
     Options.relativePaths := Options.relativePaths o;
     Options.rewrites := Options.rewrites o;
     Options.ServiceWorker := Options.ServiceWorker o;
     Options.AppCache := Options.AppCache o |}.

Definition withRelativePaths (relativePaths : bool) (o : Options.t) : Options.t :=
  {| Options.caches := Options.caches o;
     Options.scope := Options.scope o;
     Options.updateStrategy := Options.updateStrategy o;
     Options.externals := Options.externals o;
     Options.excludes := Options.excludes o;
     Options.relativePaths := relativePaths;
     Options.rewrites := Options.rewrites o;
     Options.ServiceWorker := Options.ServiceWorker o;
     Options.AppCache := Options.AppCache o |}.

(** The plugin built from [o], for configurations that the constructor
    accepts; the fall-back is never reached in the examples. *)
Definition pluginOf (o : Options.t) : OfflinePlugin :=
  match constructor o with
  | Return this => this
  | Throw _ =>
      {| this_options := o; this_assets := None; this_scope := "";
         this_externals := []; this_strategy := ""; this_relativePaths := true;
         this_rewrite := fun asset => asset; this_caches := None;
         this_tools := [] |}
  end.

(** What a call of [setAssets] returned, for calls that do not throw; the
    fall-back is never reached in the examples. *)
Definition returned (this : OfflinePlugin)
    (run : outcome (OfflinePlugin * list string)) : OfflinePlugin * list string :=
  match run with
  | Return after => after
  | Throw _ => (this, [])
  end.

(** Simplified mode with the exclude pattern [*.map] *)
Definition mapsExcluded : Options.t :=
  withExcludes (IsArray ["*.map"]) defaultOptions.

(** [{main: ["app.js"], additional: [":rest:"]}] *)
Definition restSpec : gmap string maybe_array :=
  {[ "main" := IsArray ["app.js"]; "additional" := IsArray [":rest:"] ]}.

(** [{main: ["x.js", "y.js"], additional: ["x.js"]}] *)
Definition literalSpec : gmap string maybe_array :=
  {[ "main" := IsArray ["x.js"; "y.js"]; "additional" := IsArray ["x.js"] ]}.

(** [{main: ["a.js"], additional: ["a.js"]}] *)
Definition repeatedSpec : gmap string maybe_array :=
  {[ "main" := IsArray ["a.js"]; "additional" := IsArray ["a.js"] ]}.

(** [{main: [":rest:"], optional: ["a.js", ":rest:"]}] *)
Definition twiceSpec : gmap string maybe_array :=
  {[ "main" := IsArray [":rest:"]; "optional" := IsArray ["a.js"; ":rest:"] ]}.

(** [{main: ["*.css"], additional: [], optional: 'none'}] *)
Definition sparseSpec : gmap string maybe_array :=
  {[ "main" := IsArray ["*.css"]; "additional" := IsArray [];
     "optional" := NotArray ]}.

(** [{main: ["app.js.map"]}] with the exclude pattern [*.map], in relative
    mode *)
Definition excludedLiteral : Options.t :=
  withRelativePaths true
    (withExcludes (IsArray ["*.map"])
       (withCaches (CachesObject {[ "main" := IsArray ["app.js.map"] ]})
          defaultOptions)).

(** ** The splice loop, index by index *)

(** The [for] loop of [setAssets] with its counters as the source keeps
    them: [i], [len] and the array [assets], spliced in place.  A match
    removes [assets[i]] and steps both counters back, so that the [i++] of
    the loop looks at the same index again; the two steps on [i] are taken
    together here.  [fuel] bounds the number of iterations; [None] stands
    for a run that needs more, or that reads [assets[i]] outside the
    array. *)
Fixpoint spliceLoop (fuel : nat) (magic : string -> bool) (i len : nat)
    (assets : list string) (matched : bool) (cacheResult : list string)
  : option (bool * list string * list string) :=
  match fuel with
  | 0 => None
  | S fuel' =>
      if i <? len then
        match assets !! i with
        | Some asset =>
            if magic asset
            then spliceLoop fuel' magic i (len - 1) (delete i assets) true
                   (cacheResult ++ [asset])
            else spliceLoop fuel' magic (i + 1) len assets matched cacheResult
        | None => None
        end
      else Some (matched, cacheResult, assets)
  end.

(** * Properties *)

#[local] Arguments Ascii.eqb : simpl never.
#[local] Arguments String.eqb : simpl never.

(** ** Strings *)

Lemma string_length_append (a b : string) :
  String.length (a +:+ b) = String.length a + String.length b.
Proof. induction a as [|c a IH]; simpl; [done | by rewrite IH]. Qed.

Lemma string_append_cancel (a b c : string) : a +:+ b = a +:+ c -> b = c.
Proof. induction a as [|x a IH]; simpl; [done | intros [=]; auto]. Qed.

Lemma stripLeadingSlash_fixed (key : string) :
  stripLeadingSlash key = key <-> startsWith "/" key = false.
Proof.
  destruct key as [|c key]; [done |].
  unfold startsWith; simpl.
  rewrite (Ascii.eqb_sym "/" c).
  destruct (Ascii.eqb_spec c "/") as [->|Hc]; [| done].
  split; [| done].
  intros H. apply (f_equal String.length) in H. simpl in H. lia.
Qed.

Lemma stripLeadingSlash_twice (key : string) :
  stripLeadingSlash (stripLeadingSlash key) = stripLeadingSlash key
  <-> startsWith "//" key = false.
Proof.
  rewrite stripLeadingSlash_fixed.
  destruct key as [|c key]; [done |].
  unfold startsWith; simpl.
  rewrite (Ascii.eqb_sym "/" c).
  destruct (Ascii.eqb_spec c "/") as [->|Hc]; [done |].
  rewrite (Ascii.eqb_sym "/" c).
  by destruct (Ascii.eqb_spec c "/").
Qed.

Lemma stripTrailingSlash_empty (scope : string) :
  stripTrailingSlash scope = "" <-> scope = "" \/ scope = "/".
Proof.
  destruct scope as [|c [|d scope]]; simpl.
  - naive_solver.
  - destruct (Ascii.eqb_spec c "/") as [->|Hc]; split; auto.
    intros [|[= ->]]; done.
  - split; [done | by intros [|]].
Qed.

(** ** The constructor *)

Lemma constructor_Return (o : Options.t) (this : OfflinePlugin) :
  constructor o = Return this ->
  this_options this = o /\
  this_relativePaths this
    = negb (truthy (Options.scope o)) || Options.relativePaths o /\
  this_scope this
    = (if this_relativePaths this then ""
       else stripTrailingSlash (Options.scope o) +:+ "/") /\
  this_externals this
    = match Options.externals o with IsArray items => items | NotArray => [] end /\
  this_rewrite this = makeRewrite (Options.rewrites o).
Proof.
  unfold constructor.
  destruct (negb (bool_decide _)); [done |].
  destruct (bool_decide _); [done |].
  by intros [= <-].
Qed.

Lemma constructor_total (o : Options.t) :
  Options.updateStrategy o ∈ updateStrategies ->
  Options.ServiceWorker o || Options.AppCache o = true ->
  exists this, constructor o = Return this.
Proof.
  intros Hs Ht. unfold constructor.
  rewrite bool_decide_eq_true_2 by done. simpl.
  case_bool_decide as Hn; [| eauto].
  exfalso. revert Ht Hn. unfold addTool.
  destruct (Options.ServiceWorker o), (Options.AppCache o); done.
Qed.

(** ** Path normalization *)

Lemma stripLeadingSlash_length (s : string) :
  String.length s <= S (String.length (stripLeadingSlash s)).
Proof.
  destruct s as [|c s]; simpl; [lia |].
  destruct (Ascii.eqb c "/"); simpl; lia.
Qed.

(** C8: a plugin built with the empty scope works in relative-path mode
    whatever [relativePaths] says: its scope prefix is empty and every
    output path is the rewritten path with one leading separator
    stripped. *)
Theorem empty_scope_is_relative (o : Options.t) (this : OfflinePlugin) :
  Options.scope o = "" ->
  constructor o = Return this ->
  this_relativePaths this = true /\
  this_scope this = "" /\
  (forall key, normalizePath this key = stripLeadingSlash key) /\
  (forall assets,
     validatePaths this assets
     = map stripLeadingSlash
         (filter (fun asset => truthy asset = true)
                 (map (this_rewrite this) assets))).
Proof.
  intros Hscope Hc.
  destruct (constructor_Return _ _ Hc) as (_ & Hrel & Hsc & _).
  rewrite Hscope in Hrel. simpl in Hrel.
  rewrite Hrel in Hsc.
  assert (Hn : forall key, normalizePath this key = stripLeadingSlash key).
  { intros key. unfold normalizePath. by rewrite Hrel. }
  repeat split; try done.
  intros assets. unfold validatePaths.
  apply map_ext. intros key. apply Hn.
Qed.

Lemma empty_scope_is_relative_witness :
  this_relativePaths (pluginOf (withScope "" defaultOptions)) = true /\
  normalizePath (pluginOf (withScope "" defaultOptions)) "/js/app.js" = "js/app.js".
Proof.
  destruct (empty_scope_is_relative (withScope "" defaultOptions)
              (pluginOf (withScope "" defaultOptions)) eq_refl eq_refl)
    as (Hrel & _ & Hn & _).
  split; [exact Hrel | rewrite Hn; reflexivity].
Defined.

(** C6, as the code has it: for a plugin built by the constructor,
    normalizing an already normalized path gives the same string exactly
    when, in relative mode, the path does not begin with two separators,
    and, in scoped mode, the configured scope is ["/"]. *)
Theorem normalizePath_idempotent_iff (o : Options.t) (this : OfflinePlugin)
    (key : string) :
  constructor o = Return this ->
  normalizePath this (normalizePath this key) = normalizePath this key
  <-> (if this_relativePaths this then startsWith "//" key = false
       else Options.scope o = "/").
Proof.
  intros Hc.
  destruct (constructor_Return _ _ Hc) as (_ & Hrel & Hsc & _).
  unfold normalizePath.
  destruct (this_relativePaths this) eqn:Hr.
  - apply stripLeadingSlash_twice.
  - rewrite Hsc. symmetry in Hrel. apply orb_false_iff in Hrel as [Ht _].
    apply negb_false_iff in Ht.
    set (t := stripLeadingSlash key).
    split.
    + intros H. apply string_append_cancel in H.
      destruct (stripTrailingSlash (Options.scope o)) as [|c X] eqn:HX.
      * apply stripTrailingSlash_empty in HX as [HX | HX]; [| done].
        rewrite HX in Ht. done.
      * exfalso. apply (f_equal String.length) in H.
        pose proof (stripLeadingSlash_length ((String c X +:+ "/") +:+ t)) as Hl.
        rewrite H, !string_length_append in Hl. simpl in Hl. lia.
    + intros ->. reflexivity.
Qed.

Lemma normalizePath_idempotent_iff_witness :
  normalizePath (pluginOf defaultOptions)
    (normalizePath (pluginOf defaultOptions) "/js/app.js")
  = normalizePath (pluginOf defaultOptions) "/js/app.js".
Proof.
  apply (normalizePath_idempotent_iff defaultOptions (pluginOf defaultOptions)
           "/js/app.js" eq_refl).
  reflexivity.
Defined.

Lemma normalizePath_not_idempotent :
  constructor (withScope "/app" defaultOptions)
    = Return (pluginOf (withScope "/app" defaultOptions)) /\
  normalizePath (pluginOf (withScope "/app" defaultOptions)) "a.js" = "/app/a.js" /\
  normalizePath (pluginOf (withScope "/app" defaultOptions)) "/app/a.js"
    = "/app/app/a.js" /\
  ~ (forall (this : OfflinePlugin) (key : string),
       normalizePath this (normalizePath this key) = normalizePath this key).
Proof.
  repeat split; try reflexivity.
  intros H.
  specialize (H (pluginOf (withScope "/app" defaultOptions)) "a.js").
  vm_compute in H. discriminate H.
Qed.

(** ** Array primitives *)

Lemma indexOf_None (arr : list string) (x : string) :
  indexOf arr x = None <-> x ∉ arr.
Proof.
  induction arr as [|y arr IH]; simpl.
  - split; [intros _; apply not_elem_of_nil | done].
  - rewrite not_elem_of_cons.
    destruct (String.eqb_spec y x) as [->|Hne].
    + split; [done | intros [? _]; done].
    + destruct (indexOf arr x); simpl.
      * split; [done | intros [_ H]; apply IH in H; done].
      * split; [intros _; split; [congruence | by apply IH] | done].
Qed.

Lemma indexOf_Some (arr : list string) (x : string) (i : nat) :
  indexOf arr x = Some i -> arr !! i = Some x.
Proof.
  revert i. induction arr as [|y arr IH]; intros i; simpl; [done |].
  destruct (String.eqb_spec y x) as [->|Hne].
  - by intros [= <-].
  - destruct (indexOf arr x) as [j|]; simpl; [| done].
    intros [= <-]. simpl. by apply IH.
Qed.

Lemma scanAssets_filter (magic : string -> bool) (todo : list string)
    (matched : bool) (cacheResult : list string) :
  scanAssets magic todo matched cacheResult
  = (matched || existsb magic todo,
     cacheResult ++ filter (fun asset => magic asset = true) todo,
     filter (fun asset => magic asset = false) todo).
Proof.
  revert matched cacheResult.
  induction todo as [|asset todo IH]; intros matched cacheResult; simpl.
  - by rewrite orb_false_r, app_nil_r.
  - destruct (magic asset) eqn:Hm.
    + rewrite IH. rewrite filter_cons_True by done.
      rewrite filter_cons_False by congruence.
      by rewrite orb_true_r, <- app_assoc.
    + rewrite IH. rewrite filter_cons_False by congruence.
      by rewrite filter_cons_True by done.
Qed.

Lemma NoDup_delete_lookup (l : list string) (i : nat) (x : string) :
  NoDup l -> l !! i = Some x -> x ∉ delete i l.
Proof.
  revert i. induction l as [|y l IH]; intros i Hnd Hi; [done |].
  apply NoDup_cons in Hnd as [Hy Hnd].
  destruct i as [|i]; simpl in *.
  - by injection Hi as ->.
  - apply not_elem_of_cons. split; [| by apply IH].
    intros ->. apply Hy. by eapply list_elem_of_lookup_2.
Qed.

(** ** One selector *)

Section Selectors.
Variable hasMagic : string -> option (string -> bool).

Lemma selectCacheKey_missing this key env cacheResult cacheKey :
  isLiteral hasMagic cacheKey ->
  cacheKey ∉ assets env ->
  cacheKey ∉ this_externals this ->
  selectCacheKey hasMagic this key (env, cacheResult) cacheKey
  = Return ({| assets := assets env;
               restSection := restSection env;
               warnings := warnings env ++ [assetWarning cacheKey] |},
            cacheResult ++ [cacheKey]).
Proof.
  intros [Hrest Hlit] Hpool Hext. unfold selectCacheKey.
  destruct (String.eqb_spec cacheKey REST_KEY) as [|_]; [done |].
  rewrite Hlit.
  apply indexOf_None in Hpool. rewrite Hpool.
  rewrite (bool_decide_eq_false_2 (cacheKey ∈ _)) by done.
  by rewrite andb_false_r.
Qed.

Lemma selectCacheKey_external this key env cacheResult cacheKey :
  isLiteral hasMagic cacheKey ->
  cacheKey ∈ this_externals this ->
  exists env',
    selectCacheKey hasMagic this key (env, cacheResult) cacheKey
    = Return (env', cacheResult ++ [cacheKey]) /\
    warnings env' = warnings env /\
    restSection env' = restSection env /\
    (cacheKey ∉ assets env -> env' = env).
Proof.
  intros [Hrest Hlit] Hext. unfold selectCacheKey.
  destruct (String.eqb_spec cacheKey REST_KEY) as [|_]; [done |].
  rewrite Hlit.
  destruct (indexOf (assets env) cacheKey) as [index|] eqn:Hi.
  - eexists. split; [done |]. repeat split.
    intros Hpool. apply indexOf_None in Hpool. congruence.
  - rewrite (bool_decide_eq_true_2 (cacheKey ∈ _)) by done.
    rewrite bool_decide_eq_false_2; [by eexists |].
    intros Hnil. rewrite Hnil in Hext. by apply not_elem_of_nil in Hext.
Qed.

(** C3: a literal selector whose asset is neither in the remaining pool
    nor in the externals adds exactly one warning, which names the asset,
    leaves the pool as it is and is appended to the result of its bucket;
    a literal selector listed in the externals is appended and adds no
    warning. *)
Theorem literal_selector_passthrough this key env cacheResult cacheKey :
  isLiteral hasMagic cacheKey ->
  (cacheKey ∉ assets env ->
   cacheKey ∉ this_externals this ->
   selectCacheKey hasMagic this key (env, cacheResult) cacheKey
   = Return ({| assets := assets env;
                restSection := restSection env;
                warnings :=
                  warnings env ++
                  ["OfflinePlugin: Cache asset [" +:+ cacheKey +:+
                   "] is not found in output assets"] |},
             cacheResult ++ [cacheKey])) /\
  (cacheKey ∈ this_externals this ->
   exists env',
     selectCacheKey hasMagic this key (env, cacheResult) cacheKey
     = Return (env', cacheResult ++ [cacheKey]) /\
     warnings env' = warnings env).
Proof.
  intros Hlit. split.
  - intros Hpool Hext. by apply selectCacheKey_missing.
  - intros Hext.
    destruct (selectCacheKey_external this key env cacheResult cacheKey
                Hlit Hext) as (env' & Hs & Hw & _).
    by exists env'.
Qed.

(** C9: when [externals] is not an array the constructor, if the update
    strategy is known and a tool is configured, returns a plugin whose
    externals are the empty list, so that every literal selector missing
    from the pool gets its warning. *)
Theorem externals_not_array (o : Options.t) :
  Options.externals o = NotArray ->
  Options.updateStrategy o ∈ updateStrategies ->
  Options.ServiceWorker o || Options.AppCache o = true ->
  exists this,
    constructor o = Return this /\
    this_externals this = [] /\
    forall key env cacheResult cacheKey,
      isLiteral hasMagic cacheKey ->
      cacheKey ∉ assets env ->
      selectCacheKey hasMagic this key (env, cacheResult) cacheKey
      = Return ({| assets := assets env;
                   restSection := restSection env;
                   warnings := warnings env ++ [assetWarning cacheKey] |},
                cacheResult ++ [cacheKey]).
Proof.
  intros Hext Hs Ht.
  destruct (constructor_total o Hs Ht) as [this Hc].
  destruct (constructor_Return _ _ Hc) as (_ & _ & _ & He & _).
  rewrite Hext in He.
  exists this. repeat split; try done.
  intros key env cacheResult cacheKey Hlit Hpool.
  apply selectCacheKey_missing; [done | done |].
  rewrite He. apply not_elem_of_nil.
Qed.
End Selectors.

(** ** Loops that may throw *)

Lemma forEach_cons_Return {S A : Type} (f : S -> A -> outcome S)
    (s r : S) (x : A) (l : list A) :
  forEach f s (x :: l) = Return r ->
  exists s', f s x = Return s' /\ forEach f s' l = Return r.
Proof.
  simpl. destruct (f s x) as [s'|msg] eqn:Hf; simpl; [eauto | done].
Qed.

(** A loop whose steps each add [c x] to a counter [d] of the state, and
    throw [m] when the counter would pass one. *)
Lemma forEach_counted {S A : Type} (f : S -> A -> outcome S)
    (d : S -> nat) (c : A -> nat) (m : string) :
  (forall s x,
     match f s x with
     | Return s' => d s' = d s + c x
     | Throw msg => msg = m /\ 2 <= d s + c x
     end) ->
  forall l s,
    match forEach f s l with
    | Return s' => d s' = d s + sum_list (c <$> l)
    | Throw msg => msg = m /\ 2 <= d s + sum_list (c <$> l)
    end.
Proof.
  intros Hstep. induction l as [|x l IH]; intros s; csimpl; [lia |].
  specialize (Hstep s x).
  destruct (f s x) as [s'|msg]; csimpl.
  - specialize (IH s'). destruct (forEach f s' l) as [s''|msg].
    + lia.
    + split; [apply IH | lia].
  - split; [apply Hstep | lia].
Qed.

Lemma restCount_app (a b : list string) :
  restCount (a ++ b) = restCount a + restCount b.
Proof.
  unfold restCount. induction a as [|x a IH]; csimpl; [done |].
  rewrite IH. lia.
Qed.


(** ** The remainder sentinel *)

Section Sentinel.
Variable hasMagic : string -> option (string -> bool).

Lemma selectCacheKey_counted this key (st : closure * list string) cacheKey :
  match selectCacheKey hasMagic this key st cacheKey with
  | Return st' =>
      declared (restSection st'.1)
      = declared (restSection st.1) + isRest cacheKey
  | Throw msg =>
      msg = duplicateRest /\ 2 <= declared (restSection st.1) + isRest cacheKey
  end.
Proof.
  destruct st as [env cacheResult]. unfold selectCacheKey, isRest.
  cbn [fst].
  destruct (String.eqb cacheKey REST_KEY).
  - destruct (restSection env); simpl; [split; [done | lia] | done].
  - destruct (hasMagic cacheKey) as [magic|].
    + rewrite scanAssets_filter. simpl. lia.
    + destruct (indexOf (assets env) cacheKey); simpl; [lia |].
      destruct (_ && _); simpl; lia.
Qed.

Lemma reduceKey_counted this validate caches
    (st : closure * gmap string (list string)) key :
  match reduceKey hasMagic this validate caches st key with
  | Return st' =>
      declared (restSection st'.1)
      = declared (restSection st.1) + restCount (bucketSelectors caches key)
  | Throw msg =>
      msg = duplicateRest /\
      2 <= declared (restSection st.1) + restCount (bucketSelectors caches key)
  end.
Proof.
  destruct st as [env result]. unfold reduceKey.
  destruct (bucketSelectors caches key) as [|cacheKey cache] eqn:Hcache.
  - simpl. unfold restCount. simpl. lia.
  - pose proof (forEach_counted (selectCacheKey hasMagic this key)
                  (fun st => declared (restSection st.1)) isRest duplicateRest
                  (selectCacheKey_counted this key)
                  (cacheKey :: cache) (env, [])) as H.
    fold (restCount (cacheKey :: cache)) in H.
    destruct (forEach _ _ (cacheKey :: cache)) as [[env' cacheResult]|msg];
      simpl in *; done.
Qed.

Lemma reduce_counted this validate caches keys
    (st : closure * gmap string (list string)) :
  match forEach (reduceKey hasMagic this validate caches) st keys with
  | Return st' =>
      declared (restSection st'.1)
      = declared (restSection st.1)
        + sum_list ((fun key => restCount (bucketSelectors caches key)) <$> keys)
  | Throw msg =>
      msg = duplicateRest /\
      2 <= declared (restSection st.1)
           + sum_list ((fun key => restCount (bucketSelectors caches key)) <$> keys)
  end.
Proof.
  apply (forEach_counted (reduceKey hasMagic this validate caches)
           (fun st => declared (restSection st.1))
           (fun key => restCount (bucketSelectors caches key)) duplicateRest).
  intros s key. apply reduceKey_counted.
Qed.

Lemma restCount_allSelectors caches :
  sum_list ((fun key => restCount (bucketSelectors caches key)) <$> bucketNames)
  = restCount (allSelectors caches).
Proof.
  unfold allSelectors. rewrite !restCount_app. simpl. lia.
Qed.
End Sentinel.

(** ** The bucket map *)

Section Buckets.
Variable minimatch : string -> string -> bool.
Variable hasMagic : string -> option (string -> bool).

Lemma declared_le_1 (restSection : option string) : declared restSection <= 1.
Proof. destruct restSection; simpl; lia. Qed.

(** C2: a bucket specification in which the sentinel occurs more than
    once, in one bucket or across buckets, makes [setAssets] throw the
    duplicate-sentinel error. *)
Theorem duplicate_rest_throws this assets0 warnings0 caches :
  Options.caches (this_options this) = CachesObject caches ->
  2 <= restCount (bucketSelectors caches "main"
                  ++ bucketSelectors caches "additional"
                  ++ bucketSelectors caches "optional") ->
  setAssets minimatch hasMagic this assets0 warnings0
  = Throw "The :rest: keyword can be used only once".
Proof.
  intros Hcaches Hcount. unfold setAssets, setAssetsWith. rewrite Hcaches.
  set (env0 := {| assets := _; restSection := None; warnings := warnings0 |}).
  pose proof (reduce_counted hasMagic this (validatePaths this) caches
                bucketNames (env0, ∅)) as H.
  rewrite restCount_allSelectors in H. unfold allSelectors in H.
  change ["main"; "additional"; "optional"] with bucketNames.
  destruct (forEach _ _ bucketNames) as [[env result]|msg]; simpl in *.
  - pose proof (declared_le_1 (restSection env)). lia.
  - by destruct H as [-> _].
Qed.


Lemma reduceKey_lookup_None this validate caches env result key env' result' :
  reduceKey hasMagic this validate caches (env, result) key
  = Return (env', result') ->
  forall k,
    result' !! k = None
    <-> result !! k = None /\ (k = key -> bucketSelectors caches key = []).
Proof.
  unfold reduceKey.
  destruct (bucketSelectors caches key) as [|cacheKey cache].
  - intros [= <- <-] k. tauto.
  - destruct (forEach _ _ _) as [[env1 cacheResult]|msg]; simpl; [| done].
    intros [= <- <-] k. rewrite lookup_insert_None.
    split; [intros [? ?]; split; [done | congruence] |].
    intros [? Hk]. split; [done |]. intros <-. by specialize (Hk eq_refl).
Qed.

Lemma reduce_lookup_None this validate caches keys env result env' result' :
  forEach (reduceKey hasMagic this validate caches) (env, result) keys
  = Return (env', result') ->
  forall k,
    result' !! k = None
    <-> result !! k = None /\ (k ∈ keys -> bucketSelectors caches k = []).
Proof.
  revert env result.
  induction keys as [|key keys IH]; intros env result.
  - simpl. intros [= <- <-] k. split; [| tauto].
    intros H. split; [done |]. intros Hk. by apply elem_of_nil in Hk.
  - intros H. apply forEach_cons_Return in H as ([env1 result1] & H1 & H2).
    intros k. rewrite (IH _ _ H2 k).
    rewrite (reduceKey_lookup_None _ _ _ _ _ _ _ _ H1 k).
    rewrite elem_of_cons. split.
    + intros [[Hk Hkey] Hkeys]. split; [done |].
      intros [-> | Hin]; auto.
    + intros [Hk Hall]. split; [split; [done |] |]; [| by auto].
      intros ->. auto.
Qed.

Lemma appendRest_lookup_None validate env
    (handledCaches : gmap string (list string)) k :
  appendRest validate env handledCaches !! k = None
  <-> handledCaches !! k = None.
Proof.
  unfold appendRest. destruct (restSection env) as [rest|]; [| done].
  destruct (assets env); [done |].
  destruct (handledCaches !! rest) eqn:Hrest; [| done].
  rewrite lookup_insert_None. split; [by intros [? _] |].
  intros Hk. split; [done |]. congruence.
Qed.

(** What [setAssetsWith] returns for a bucket specification. *)
Lemma setAssetsWith_Return validate this assets0 warnings0 caches this' warnings' :
  Options.caches (this_options this) = CachesObject caches ->
  setAssetsWith minimatch hasMagic validate this assets0 warnings0
  = Return (this', warnings') ->
  exists env handledCaches,
    forEach (reduceKey hasMagic this validate caches)
      ({| assets := applyExcludes minimatch
                      (Options.excludes (this_options this)) assets0;
          restSection := None;
          warnings := warnings0 |}, ∅) bucketNames
    = Return (env, handledCaches) /\
    warnings' = warnings env /\
    this_assets this' = Some (assets env) /\
    this_caches this' = Some (appendRest validate env handledCaches).
Proof.
  intros Hcaches. unfold setAssetsWith. rewrite Hcaches.
  change ["main"; "additional"; "optional"] with bucketNames.
  destruct (forEach _ _ bucketNames) as [[env handledCaches]|msg];
    simpl; [| done].
  intros [= <- <-]. by exists env, handledCaches.
Qed.

(** C10: for a bucket specification that [setAssets] accepts, a bucket
    whose selector list is empty or not an array has no key in the final
    bucket map, and a bucket with a non-empty selector list has one. *)
Theorem bucket_keys this assets0 warnings0 caches this' warnings' :
  Options.caches (this_options this) = CachesObject caches ->
  setAssets minimatch hasMagic this assets0 warnings0
  = Return (this', warnings') ->
  exists m,
    this_caches this' = Some m /\
    forall key,
      key ∈ ["main"; "additional"; "optional"] ->
      ((caches !! key = Some (IsArray [])
        \/ (forall items, caches !! key <> Some (IsArray items))) ->
       m !! key = None) /\
      (forall cacheKey cache,
         caches !! key = Some (IsArray (cacheKey :: cache)) ->
         exists bucket, m !! key = Some bucket).
Proof.
  intros Hcaches Hset.
  destruct (setAssetsWith_Return _ _ _ _ _ _ _ Hcaches Hset)
    as (env & handledCaches & Hfold & _ & _ & Hm).
  pose proof (reduce_lookup_None _ _ _ _ _ _ _ _ Hfold) as Hdom.
  pose proof (appendRest_lookup_None (validatePaths this) env handledCaches)
    as Hsame.
  eexists. split; [exact Hm |].
  intros key Hkey. split.
  - intros Hempty. apply Hsame, Hdom. split; [apply lookup_empty |].
    intros _. unfold bucketSelectors.
    destruct Hempty as [-> | Hnot]; [done |].
    destruct (caches !! key) as [[items|]|] eqn:Hk; try done.
    by destruct (Hnot items).
  - intros cacheKey cache Hk.
    destruct (appendRest _ _ _ !! key) as [bucket|] eqn:Hlook; [eauto |].
    apply Hsame, Hdom in Hlook as [_ Hlook].
    specialize (Hlook Hkey). unfold bucketSelectors in Hlook.
    rewrite Hk in Hlook. done.
Qed.
End Buckets.

(** ** Partitioning *)

Lemma forEach_preserves {S A : Type} (f : S -> A -> outcome S)
    (I : S -> Prop) (l : list A) (s r : S) :
  I s ->
  (forall s x s', x ∈ l -> I s -> f s x = Return s' -> I s') ->
  forEach f s l = Return r ->
  I r.
Proof.
  revert s. induction l as [|x l IH]; intros s Hs Hstep.
  - simpl. by intros [= <-].
  - intros (s' & Hf & Hl)%forEach_cons_Return.
    apply (IH s'); [| | done].
    + apply (Hstep s x s'); [left | done | done].
    + intros s1 y s2 Hy. apply Hstep. by right.
Qed.

Lemma bucketEntry_insert (m : gmap string (list string)) key bucket k x :
  bucketEntry (<[key := bucket]> m) k x
  <-> (k = key /\ x ∈ bucket) \/ (k <> key /\ bucketEntry m k x).
Proof.
  unfold bucketEntry. destruct (decide (k = key)) as [->|Hne].
  - rewrite lookup_insert_eq. split.
    + intros (b & [= <-] & Hx). by left.
    + intros [[_ Hx] | [? _]]; [eauto | done].
  - rewrite lookup_insert_ne by done. split.
    + intros H. by right.
    + intros [[? _] | [_ H]]; done.
Qed.

Lemma bucketEntry_empty key x : ~ bucketEntry ∅ key x.
Proof. intros (b & H & _). by rewrite lookup_empty in H. Qed.

Section Partition.
Variable hasMagic : string -> option (string -> bool).
Variable this : OfflinePlugin.
Variable caches : gmap string maybe_array.
Variables warnings0 pool0 : list string.

#[local] Abbreviation Inv := (partitionInv hasMagic this caches warnings0 pool0).
#[local] Abbreviation PT := (passedThrough hasMagic this caches).

Lemma passedThrough_mono before new after key x :
  PT new key x -> PT (before ++ new ++ after) key x.
Proof.
  intros (Hsel & Hlit & Hwhy). split; [done |]. split; [done |].
  destruct Hwhy as [Hext | Hwarn]; [by left | right].
  rewrite !elem_of_app. auto.
Qed.

Lemma partitionInv_initial :
  Inv {| assets := pool0; restSection := None; warnings := warnings0 |} ∅.
Proof.
  exists []. simpl. rewrite app_nil_r. repeat split; try done.
  - intros key x H. by apply bucketEntry_empty in H.
  - intros _ key x H. by apply bucketEntry_empty in H.
  - intros _ j k x _ H. by apply bucketEntry_empty in H.
Qed.

Lemma partitionInv_start env result key :
  Inv env result -> Inv env (<[key := []]> result).
Proof.
  intros (new & Hw & Hsub & Hin & Hout & Hapart).
  exists new. repeat split; try done.
  - intros k x [[_ Hx] | [_ Hx]]%bucketEntry_insert; [| by apply Hin].
    by apply elem_of_nil in Hx.
  - intros Hnd k x [[_ Hx] | [_ Hx]]%bucketEntry_insert;
      [| by apply (Hout Hnd k)].
    by apply elem_of_nil in Hx.
  - intros Hnd j k x Hjk [[_ Hj] | [_ Hj]]%bucketEntry_insert
      [[_ Hk] | [_ Hk]]%bucketEntry_insert;
      try (by apply elem_of_nil in Hj); try (by apply elem_of_nil in Hk).
    by apply Hapart.
Qed.

(** One selector adds [added] to the bucket in progress: each added name
    is taken from the pool, or was not there and is passed through. *)
Lemma partitionInv_push env env' result key cacheResult added extra :
  Inv env (<[key := cacheResult]> result) ->
  warnings env' = warnings env ++ extra ->
  assets env' `sublist_of` assets env ->
  (forall x, x ∈ added ->
     (x ∈ assets env /\ (NoDup (assets env) -> x ∉ assets env'))
     \/ ((x ∉ assets env) /\ PT extra key x)) ->
  Inv env' (<[key := cacheResult ++ added]> result).
Proof.
  intros (new & Hw & Hsub & Hin & Hout & Hapart) Hw' Hsub' Hadd.
  assert (Hold : forall k x, PT new k x -> PT (new ++ extra) k x).
  { intros k x H. apply (passedThrough_mono [] new extra), H. }
  assert (Hnew : forall k x, PT extra k x -> PT (new ++ extra) k x).
  { intros k x H. rewrite <- (app_nil_r extra).
    apply (passedThrough_mono new extra []), H. }
  assert (Hsplit : forall k x,
    bucketEntry (<[key := cacheResult ++ added]> result) k x ->
    bucketEntry (<[key := cacheResult]> result) k x \/ (k = key /\ x ∈ added)).
  { intros k x [[-> Hx] | [Hne Hx]]%bucketEntry_insert.
    - apply elem_of_app in Hx as [Hx | Hx]; [left | by right].
      apply bucketEntry_insert. by left.
    - left. apply bucketEntry_insert. by right. }
  exists (new ++ extra). repeat split.
  - by rewrite Hw', Hw, app_assoc.
  - by etrans.
  - intros k x [Hx | [-> Hx]]%Hsplit.
    + destruct (Hin k x Hx) as [? | ?]; [by left | right; by apply Hold].
    + destruct (Hadd x Hx) as [[Hpool _] | [_ Hpt]].
      * left. by eapply elem_of_sublist.
      * right. by apply Hnew.
  - intros Hnd k x [Hx | [-> Hx]]%Hsplit.
    + intros Hpool. apply (Hout Hnd k x Hx). by eapply elem_of_sublist.
    + destruct (Hadd x Hx) as [[_ Hgone] | [Hpool _]].
      * apply Hgone. by eapply sublist_NoDup.
      * intros Hp. apply Hpool. by eapply elem_of_sublist.
  - intros Hnd j k x Hjk [Hj | [-> Hj]]%Hsplit [Hk | [-> Hk]]%Hsplit.
    + destruct (Hapart Hnd j k x Hjk Hj Hk); [left | right]; by apply Hold.
    + destruct (Hadd x Hk) as [[Hpool _] | [_ Hpt]].
      * by destruct (Hout Hnd j x Hj).
      * right. by apply Hnew.
    + destruct (Hadd x Hj) as [[Hpool _] | [_ Hpt]].
      * by destruct (Hout Hnd k x Hk).
      * left. by apply Hnew.
    + done.
Qed.

Lemma selectCacheKey_inv env result key cacheResult cacheKey env' cacheResult' :
  Inv env (<[key := cacheResult]> result) ->
  cacheKey ∈ bucketSelectors caches key ->
  selectCacheKey hasMagic this key (env, cacheResult) cacheKey
  = Return (env', cacheResult') ->
  Inv env' (<[key := cacheResult']> result).
Proof.
  intros Hinv Hsel. unfold selectCacheKey.
  destruct (String.eqb_spec cacheKey REST_KEY) as [Hrest|Hrest].
  { destruct (restSection env); [done |]. intros [= <- <-].
    rewrite <- (app_nil_r cacheResult).
    eapply (partitionInv_push env _ result key cacheResult [] []);
      try done.
    - simpl. by rewrite app_nil_r.
    - intros x Hx. by apply elem_of_nil in Hx. }
  destruct (hasMagic cacheKey) as [magic|] eqn:Hmagic.
  - rewrite scanAssets_filter. simpl. intros [= <- <-].
    eapply (partitionInv_push env _ result key cacheResult _
              (if existsb magic (assets env) then []
               else [patternWarning cacheKey])); try done.
    + simpl. destruct (existsb magic (assets env)); [| done].
      by rewrite app_nil_r.
    + apply sublist_filter.
    + intros x [Hm Hx]%list_elem_of_filter. left. split; [done |].
      intros _ [Hm' _]%list_elem_of_filter. congruence.
  - destruct (indexOf (assets env) cacheKey) as [index|] eqn:Hindex.
    + apply indexOf_Some in Hindex. intros [= <- <-].
      eapply (partitionInv_push env _ result key cacheResult _ []);
        try done.
      * simpl. by rewrite app_nil_r.
      * apply sublist_delete.
      * intros x ->%list_elem_of_singleton. left. split.
        -- by eapply list_elem_of_lookup_2.
        -- intros Hnd. by apply NoDup_delete_lookup.
    + apply indexOf_None in Hindex.
      destruct (negb (bool_decide (this_externals this = []))
                && bool_decide (cacheKey ∈ this_externals this)) eqn:Hext.
      * apply andb_true_iff in Hext as [_ Hext%bool_decide_eq_true].
        intros [= <- <-].
        eapply (partitionInv_push env _ result key cacheResult _ []);
          try done.
        -- by rewrite app_nil_r.
        -- intros x ->%list_elem_of_singleton. right. split; [done |].
           repeat split; try done. by left.
      * intros [= <- <-].
        eapply (partitionInv_push env _ result key cacheResult _
                  [assetWarning cacheKey]); try done.
        intros x ->%list_elem_of_singleton. right. split; [done |].
        repeat split; try done. right. by apply list_elem_of_singleton.
Qed.

Lemma reduceKey_inv env result key env' result' :
  Inv env result ->
  reduceKey hasMagic this (fun cacheResult => cacheResult) caches
    (env, result) key
  = Return (env', result') ->
  Inv env' result'.
Proof.
  intros Hinv. unfold reduceKey.
  destruct (bucketSelectors caches key) as [|cacheKey cache] eqn:Hcache.
  { by intros [= <- <-]. }
  destruct (forEach _ _ (cacheKey :: cache)) as [[env1 cacheResult]|msg]
    eqn:Hloop; simpl; [| done].
  intros [= <- <-].
  apply (forEach_preserves (selectCacheKey hasMagic this key)
           (fun st => Inv st.1 (<[key := st.2]> result))
           (cacheKey :: cache) (env, []) (env1, cacheResult));
    [by apply partitionInv_start | | done].
  intros [env2 cacheResult2] x [env3 cacheResult3] Hx Hinv2 Hstep.
  simpl in *. eapply selectCacheKey_inv; [done | | done].
  by rewrite Hcache.
Qed.

Lemma reduce_inv keys env result env' result' :
  Inv env result ->
  forEach (reduceKey hasMagic this (fun cacheResult => cacheResult) caches)
    (env, result) keys
  = Return (env', result') ->
  Inv env' result'.
Proof.
  intros Hinv Hloop.
  apply (forEach_preserves
           (reduceKey hasMagic this (fun cacheResult => cacheResult) caches)
           (fun st => Inv st.1 st.2) keys (env, result) (env', result'));
    [done | | done].
  intros [env1 result1] key [env2 result2] _ Hinv1 Hstep.
  by eapply reduceKey_inv.
Qed.

(** The remainder target takes the rest of the pool: names that no bucket
    holds yet. *)
Lemma appendRest_inv env handledCaches :
  Inv env handledCaches ->
  exists new,
    warnings env = warnings0 ++ new /\
    (forall key x,
       bucketEntry (appendRest (fun leftover => leftover) env handledCaches)
         key x ->
       x ∈ pool0 \/ PT new key x) /\
    (NoDup pool0 ->
     forall j k x,
       j <> k ->
       bucketEntry (appendRest (fun leftover => leftover) env handledCaches)
         j x ->
       bucketEntry (appendRest (fun leftover => leftover) env handledCaches)
         k x ->
       PT new j x \/ PT new k x).
Proof.
  intros (new & Hw & Hsub & Hin & Hout & Hapart).
  exists new. split; [done |].
  unfold appendRest.
  destruct (restSection env) as [rest|]; [| by split].
  destruct (assets env) as [|asset leftover] eqn:Hpool; [by split |].
  destruct (handledCaches !! rest) as [bucket|] eqn:Hbucket; [| by split].
  rewrite <- Hpool in *. clear Hpool asset leftover.
  assert (Hsplit : forall k x,
    bucketEntry (<[rest := bucket ++ assets env]> handledCaches) k x ->
    bucketEntry handledCaches k x \/ (k = rest /\ x ∈ assets env)).
  { intros k x [[-> Hx] | [Hne Hx]]%bucketEntry_insert; [| by left].
    apply elem_of_app in Hx as [Hx | Hx]; [left | by right].
    by exists bucket. }
  split.
  - intros k x [Hx | [-> Hx]]%Hsplit; [by apply Hin |].
    left. by eapply elem_of_sublist.
  - intros Hnd j k x Hjk [Hj | [-> Hj]]%Hsplit [Hk | [-> Hk]]%Hsplit.
    + by apply Hapart.
    + by destruct (Hout Hnd j x Hj).
    + by destruct (Hout Hnd k x Hk).
    + done.
Qed.
End Partition.

(** ** What the buckets hold *)

Section Soundness.
Variable minimatch : string -> string -> bool.
Variable hasMagic : string -> option (string -> bool).

Lemma applyExcludes_sublist excludes assets0 :
  applyExcludes minimatch excludes assets0 `sublist_of` assets0.
Proof.
  unfold applyExcludes. destruct excludes as [[|glob globs]|]; try done.
  apply sublist_filter.
Qed.

Lemma applyExcludes_excluded globs assets0 x :
  (exists glob, glob ∈ globs /\ minimatch x glob = true) ->
  x ∉ applyExcludes minimatch (IsArray globs) assets0.
Proof.
  intros (glob & Hglob & Hmatch). unfold applyExcludes.
  destruct globs as [|g globs]; [by apply elem_of_nil in Hglob |].
  intros [Hnone _]%list_elem_of_filter.
  assert (existsb (fun glob => minimatch x glob) (g :: globs) = true) as Hsome.
  { apply existsb_exists. exists glob. split; [| done].
    by apply list_elem_of_In. }
  congruence.
Qed.

(** Every entry of a bucket, before rewriting and normalization, is an
    asset that survived the exclusion or a literal selector passed
    through; two buckets share a name only if it was passed through in one
    of them, when the asset list has no repeated name. *)
Lemma partitionAssets_sound this assets0 warnings0 caches this' warnings' :
  Options.caches (this_options this) = CachesObject caches ->
  partitionAssets minimatch hasMagic this assets0 warnings0
  = Return (this', warnings') ->
  exists new m,
    warnings' = warnings0 ++ new /\
    this_caches this' = Some m /\
    (forall key x,
       bucketEntry m key x ->
       x ∈ applyExcludes minimatch (Options.excludes (this_options this)) assets0
       \/ passedThrough hasMagic this caches new key x) /\
    (NoDup assets0 ->
     forall j k x,
       j <> k -> bucketEntry m j x -> bucketEntry m k x ->
       passedThrough hasMagic this caches new j x
       \/ passedThrough hasMagic this caches new k x).
Proof.
  intros Hcaches Hrun.
  destruct (setAssetsWith_Return _ _ _ _ _ _ _ _ _ Hcaches Hrun)
    as (env & handledCaches & Hfold & Hw & _ & Hm).
  pose proof (reduce_inv hasMagic this caches warnings0 _ _ _ _ _ _
                (partitionInv_initial hasMagic this caches warnings0 _) Hfold)
    as Hinv.
  apply appendRest_inv in Hinv as (new & Hnew & Hin & Hapart).
  exists new, (appendRest (fun leftover => leftover) env handledCaches).
  split; [congruence |]. split; [done |]. split; [done |].
  intros Hnd. apply Hapart.
  eapply sublist_NoDup; [done | apply applyExcludes_sublist].
Qed.


(** C7, as the code has it: an asset that an exclude pattern matches is
    not in the pool that is partitioned, and, before rewriting and
    normalization, it is an entry of a bucket only where a literal
    selector of that bucket names it: it is then passed through like any
    name missing from the pool.  In simplified mode it is in no bucket. *)
Theorem excluded_asset_buckets this assets0 warnings0 globs x this' warnings' m :
  Options.excludes (this_options this) = IsArray globs ->
  (exists glob, glob ∈ globs /\ minimatch x glob = true) ->
  partitionAssets minimatch hasMagic this assets0 warnings0
  = Return (this', warnings') ->
  this_caches this' = Some m ->
  (x ∉ applyExcludes minimatch (IsArray globs) assets0) /\
  forall key,
    bucketEntry m key x ->
    exists caches new,
      Options.caches (this_options this) = CachesObject caches /\
      warnings' = warnings0 ++ new /\
      passedThrough hasMagic this caches new key x.
Proof.
  intros Hexcludes Hmatch Hrun Hm.
  pose proof (applyExcludes_excluded globs assets0 x Hmatch) as Hgone.
  split; [done |]. intros key Hentry.
  destruct (Options.caches (this_options this)) as [| |caches] eqn:Hcaches.
  - exfalso. revert Hrun. unfold partitionAssets, setAssetsWith.
    rewrite Hcaches, Hexcludes. simpl. intros [= <- <-].
    simpl in Hm. injection Hm as <-.
    destruct Hentry as (bucket & Hlook & Hx).
    apply lookup_singleton_Some in Hlook as [_ <-]. done.
  - exfalso. revert Hrun. unfold partitionAssets, setAssetsWith.
    rewrite Hcaches, Hexcludes. simpl. intros [= <- <-].
    simpl in Hm. injection Hm as <-.
    destruct Hentry as (bucket & Hlook & Hx).
    apply lookup_singleton_Some in Hlook as [_ <-]. done.
  - destruct (partitionAssets_sound _ _ _ _ _ _ Hcaches Hrun)
      as (new & m' & Hw & Hm' & Hin & _).
    rewrite Hm in Hm'. injection Hm' as <-.
    exists caches, new. split; [done |]. split; [done |].
    destruct (Hin key x Hentry) as [Hpool | Hpt]; [| done].
    rewrite Hexcludes in Hpool. done.
Qed.
End Soundness.

(** ** Rewriting and normalization come after partitioning *)

Lemma validatePaths_app this (a b : list string) :
  validatePaths this (a ++ b) = validatePaths this a ++ validatePaths this b.
Proof. unfold validatePaths. by rewrite map_app, filter_app, map_app. Qed.

Section Validation.
Variable minimatch : string -> string -> bool.
Variable hasMagic : string -> option (string -> bool).
Variable this : OfflinePlugin.

#[local] Abbreviation raw := (fun cacheResult : list string => cacheResult).

Lemma reduceKey_validated caches env (result : gmap string (list string)) key :
  reduceKey hasMagic this (validatePaths this) caches
    (env, validatePaths this <$> result) key
  = match reduceKey hasMagic this raw caches (env, result) key with
    | Return (env', result') => Return (env', validatePaths this <$> result')
    | Throw msg => Throw msg
    end.
Proof.
  unfold reduceKey.
  destruct (bucketSelectors caches key) as [|cacheKey cache]; [done |].
  destruct (forEach _ _ _) as [[env' cacheResult]|msg]; simpl; [| done].
  by rewrite fmap_insert.
Qed.

Lemma reduce_validated caches keys env (result : gmap string (list string)) :
  forEach (reduceKey hasMagic this (validatePaths this) caches)
    (env, validatePaths this <$> result) keys
  = match forEach (reduceKey hasMagic this raw caches) (env, result) keys with
    | Return (env', result') => Return (env', validatePaths this <$> result')
    | Throw msg => Throw msg
    end.
Proof.
  revert env result. induction keys as [|key keys IH]; intros env result.
  - done.
  - cbn [forEach]. rewrite reduceKey_validated.
    destruct (reduceKey hasMagic this raw caches (env, result) key)
      as [[env1 result1]|msg]; [| done].
    cbn [mbind outcome_bind]. apply IH.
Qed.

Lemma appendRest_validated env (handledCaches : gmap string (list string)) :
  appendRest (validatePaths this) env (validatePaths this <$> handledCaches)
  = validatePaths this <$> appendRest raw env handledCaches.
Proof.
  unfold appendRest. destruct (restSection env) as [rest|]; [| done].
  destruct (assets env) as [|asset leftover]; [done |].
  rewrite lookup_fmap.
  destruct (handledCaches !! rest) as [bucket|]; simpl; [| done].
  by rewrite fmap_insert, validatePaths_app.
Qed.

(** The final bucket map is the partition with every bucket rewritten and
    normalized: [validatePaths] decides no bucket. *)
Lemma setAssets_partitionAssets assets0 warnings0 :
  setAssets minimatch hasMagic this assets0 warnings0
  = match partitionAssets minimatch hasMagic this assets0 warnings0 with
    | Return (after, warnings') => Return (validated this after, warnings')
    | Throw msg => Throw msg
    end.
Proof.
  unfold setAssets, partitionAssets, setAssetsWith.
  destruct (match Options.caches (this_options this) with
            | CachesFalsy => Options.caches defaultOptions
            | c => c
            end) as [| |caches].
  - unfold validated. simpl. by rewrite map_fmap_singleton.
  - unfold validated. simpl. by rewrite map_fmap_singleton.
  - rewrite <- (fmap_empty (validatePaths this)) at 1.
    rewrite reduce_validated.
    destruct (forEach _ _ _) as [[env handledCaches]|msg]; [| done].
    cbn [mbind outcome_bind]. unfold validated. simpl.
    by rewrite appendRest_validated.
Qed.
End Validation.

(** ** The remainder target has a bucket *)

Section Remainder.
Variable hasMagic : string -> option (string -> bool).
Variable this : OfflinePlugin.



End Remainder.

(** ** Worked examples *)

Section Examples.
Variable minimatch : string -> string -> bool.
Variable hasMagic : string -> option (string -> bool).

(** C4, as the code has it: with the default configuration, simplified
    mode and the exclude pattern [*.map], the assets [app.js],
    [app.js.map], [index.html] give the final bucket map
    [main = ["/app.js", "/"]]: the scope prefix comes before [app.js]. *)
Theorem simplified_mode_example warnings0 :
  minimatch "app.js" "*.map" = false ->
  minimatch "app.js.map" "*.map" = true ->
  minimatch "index.html" "*.map" = false ->
  exists this final,
    constructor mapsExcluded = Return this /\
    setAssets minimatch hasMagic this
      ["app.js"; "app.js.map"; "index.html"] warnings0
    = Return (final, warnings0) /\
    this_assets final = Some ["app.js"; "index.html"] /\
    this_caches final = Some {[ "main" := ["/app.js"; "/"] ]}.
Proof.
  intros Hjs Hmap Hhtml.
  exists (pluginOf mapsExcluded). eexists.
  split; [reflexivity |].
  vm_compute. rewrite Hjs, Hmap, Hhtml. vm_compute.
  repeat split; reflexivity.
Qed.

(** C5, as the code has it: the specification
    [{main: ["app.js"], additional: [":rest:"]}] on the assets [app.js],
    [vendor.js], [style.css] partitions them into [main = ["app.js"]] and
    [additional = ["vendor.js", "style.css"]]; with the default scope the
    final bucket map holds these names behind the prefix ["/"]. *)
Theorem rest_example warnings0 :
  hasMagic "app.js" = None ->
  exists this after final,
    constructor (withCaches (CachesObject restSpec) defaultOptions)
    = Return this /\
    partitionAssets minimatch hasMagic this
      ["app.js"; "vendor.js"; "style.css"] warnings0
    = Return (after, warnings0) /\
    this_caches after
    = Some {[ "main" := ["app.js"];
              "additional" := ["vendor.js"; "style.css"] ]} /\
    setAssets minimatch hasMagic this
      ["app.js"; "vendor.js"; "style.css"] warnings0
    = Return (final, warnings0) /\
    this_caches final
    = Some {[ "main" := ["/app.js"];
              "additional" := ["/vendor.js"; "/style.css"] ]}.
Proof.
  intros Hliteral.
  exists (pluginOf (withCaches (CachesObject restSpec) defaultOptions)).
  eexists. eexists.
  split; [reflexivity |].
  vm_compute. rewrite Hliteral. vm_compute.
  repeat split; reflexivity.
Qed.
End Examples.

(** ** The theorems at concrete inputs *)



(** An asset list that names an asset twice (which [Object.keys] never
    yields) lets two buckets take the name from the pool, with no warning. *)
Lemma partition_repeated_asset :
  exists after,
    partitionAssets globMinimatch globHasMagic
      (pluginOf (withCaches (CachesObject repeatedSpec) defaultOptions))
      ["a.js"; "a.js"] []
    = Return (after, []) /\
    this_caches after
    = Some {[ "main" := ["a.js"]; "additional" := ["a.js"] ]}.
Proof. eexists. split; [vm_compute; reflexivity | reflexivity]. Qed.

Lemma duplicate_rest_throws_witness :
  setAssets globMinimatch globHasMagic
    (pluginOf (withCaches (CachesObject twiceSpec) defaultOptions))
    ["a.js"; "b.js"] []
  = Throw "The :rest: keyword can be used only once".
Proof.
  apply (duplicate_rest_throws globMinimatch globHasMagic
           (pluginOf (withCaches (CachesObject twiceSpec) defaultOptions))
           ["a.js"; "b.js"] [] twiceSpec).
  - reflexivity.
  - vm_compute. lia.
Defined.

Lemma literal_selector_passthrough_witness :
  selectCacheKey globHasMagic
    (pluginOf (withExternals (IsArray ["cdn.js"]) defaultOptions)) "main"
    ({| assets := ["app.js"]; restSection := None; warnings := [] |}, [])
    "missing.js"
  = Return ({| assets := ["app.js"];
               restSection := None;
               warnings :=
                 ["OfflinePlugin: Cache asset [missing.js] is not found in output assets"] |},
            ["missing.js"]) /\
  exists env',
    selectCacheKey globHasMagic
      (pluginOf (withExternals (IsArray ["cdn.js"]) defaultOptions)) "main"
      ({| assets := ["app.js"]; restSection := None; warnings := [] |}, [])
      "cdn.js"
    = Return (env', ["cdn.js"]) /\
    warnings env' = [].
Proof.
  split.
  - apply (literal_selector_passthrough globHasMagic
             (pluginOf (withExternals (IsArray ["cdn.js"]) defaultOptions))
             "main"
             {| assets := ["app.js"]; restSection := None; warnings := [] |}
             [] "missing.js").
    + split; [discriminate | reflexivity].
    + apply (bool_decide_unpack _). vm_compute. exact I.
    + apply (bool_decide_unpack _). vm_compute. exact I.
  - apply (literal_selector_passthrough globHasMagic
             (pluginOf (withExternals (IsArray ["cdn.js"]) defaultOptions))
             "main"
             {| assets := ["app.js"]; restSection := None; warnings := [] |}
             [] "cdn.js").
    + split; [discriminate | reflexivity].
    + apply (bool_decide_unpack _). vm_compute. exact I.
Defined.

Lemma simplified_mode_example_witness :
  exists this final,
    constructor mapsExcluded = Return this /\
    setAssets globMinimatch globHasMagic this
      ["app.js"; "app.js.map"; "index.html"] []
    = Return (final, []) /\
    this_assets final = Some ["app.js"; "index.html"] /\
    this_caches final = Some {[ "main" := ["/app.js"; "/"] ]}.
Proof.
  apply (simplified_mode_example globMinimatch globHasMagic []);
    reflexivity.
Defined.

Lemma simplified_mode_counterexample :
  this_caches
    (returned (pluginOf mapsExcluded)
       (setAssets globMinimatch globHasMagic (pluginOf mapsExcluded)
          ["app.js"; "app.js.map"; "index.html"] [])).1
  = Some {[ "main" := ["/app.js"; "/"] ]} /\
  this_caches
    (returned (pluginOf mapsExcluded)
       (setAssets globMinimatch globHasMagic (pluginOf mapsExcluded)
          ["app.js"; "app.js.map"; "index.html"] [])).1
  <> Some {[ "main" := ["app.js"; "/"] ]}.
Proof.
  split; [vm_compute; reflexivity |].
  intros H.
  apply (f_equal (fun caches : option (gmap string (list string)) =>
                    caches ≫= (fun m => m !! "main"))) in H.
  vm_compute in H. discriminate H.
Qed.

Lemma rest_example_witness :
  exists this after final,
    constructor (withCaches (CachesObject restSpec) defaultOptions)
    = Return this /\
    partitionAssets globMinimatch globHasMagic this
      ["app.js"; "vendor.js"; "style.css"] []
    = Return (after, []) /\
    this_caches after
    = Some {[ "main" := ["app.js"];
              "additional" := ["vendor.js"; "style.css"] ]} /\
    setAssets globMinimatch globHasMagic this
      ["app.js"; "vendor.js"; "style.css"] []
    = Return (final, []) /\
    this_caches final
    = Some {[ "main" := ["/app.js"];
              "additional" := ["/vendor.js"; "/style.css"] ]}.
Proof.
  apply (rest_example globMinimatch globHasMagic []). reflexivity.
Defined.

Lemma rest_counterexample :
  this_caches
    (returned (pluginOf (withCaches (CachesObject restSpec) defaultOptions))
       (setAssets globMinimatch globHasMagic
          (pluginOf (withCaches (CachesObject restSpec) defaultOptions))
          ["app.js"; "vendor.js"; "style.css"] [])).1
  = Some {[ "main" := ["/app.js"];
            "additional" := ["/vendor.js"; "/style.css"] ]} /\
  this_caches
    (returned (pluginOf (withCaches (CachesObject restSpec) defaultOptions))
       (setAssets globMinimatch globHasMagic
          (pluginOf (withCaches (CachesObject restSpec) defaultOptions))
          ["app.js"; "vendor.js"; "style.css"] [])).1
  <> Some {[ "main" := ["app.js"];
             "additional" := ["vendor.js"; "style.css"] ]}.
Proof.
  split; [vm_compute; reflexivity |].
  intros H.
  apply (f_equal (fun caches : option (gmap string (list string)) =>
                    caches ≫= (fun m => m !! "main"))) in H.
  vm_compute in H. discriminate H.
Qed.

Lemma excluded_asset_buckets_witness :
  ("app.js.map" ∉ applyExcludes globMinimatch (IsArray ["*.map"])
                     ["app.js"; "app.js.map"]) /\
  forall key,
    bucketEntry {[ "main" := ["app.js.map"] ]} key "app.js.map" ->
    exists caches new,
      Options.caches (this_options (pluginOf excludedLiteral))
      = CachesObject caches /\
      [assetWarning "app.js.map"] = [] ++ new /\
      passedThrough globHasMagic (pluginOf excludedLiteral) caches new key
        "app.js.map".
Proof.
  apply (excluded_asset_buckets globMinimatch globHasMagic
           (pluginOf excludedLiteral) ["app.js"; "app.js.map"] []
           ["*.map"] "app.js.map"
           (returned (pluginOf excludedLiteral)
              (partitionAssets globMinimatch globHasMagic
                 (pluginOf excludedLiteral) ["app.js"; "app.js.map"] [])).1
           [assetWarning "app.js.map"]
           {[ "main" := ["app.js.map"] ]}).
  - reflexivity.
  - exists "*.map". split; [| reflexivity].
    apply (bool_decide_unpack _). vm_compute. exact I.
  - vm_compute. reflexivity.
  - vm_compute. reflexivity.
Defined.

Lemma excluded_literal_counterexample :
  globMinimatch "app.js.map" "*.map" = true /\
  exists final,
    setAssets globMinimatch globHasMagic (pluginOf excludedLiteral)
      ["app.js"; "app.js.map"] []
    = Return (final, [assetWarning "app.js.map"]) /\
    this_caches final = Some {[ "main" := ["app.js.map"] ]} /\
    bucketEntry {[ "main" := ["app.js.map"] ]} "main" "app.js.map".
Proof.
  split; [reflexivity |]. eexists.
  split; [vm_compute; reflexivity |]. split; [reflexivity |].
  exists ["app.js.map"]. split; [reflexivity |].
  apply list_elem_of_singleton. reflexivity.
Qed.

Lemma externals_not_array_witness :
  exists this,
    constructor (withExternals NotArray defaultOptions) = Return this /\
    this_externals this = [] /\
    forall key env cacheResult cacheKey,
      isLiteral globHasMagic cacheKey ->
      cacheKey ∉ assets env ->
      selectCacheKey globHasMagic this key (env, cacheResult) cacheKey
      = Return ({| assets := assets env;
                   restSection := restSection env;
                   warnings := warnings env ++ [assetWarning cacheKey] |},
                cacheResult ++ [cacheKey]).
Proof.
  apply (externals_not_array globHasMagic (withExternals NotArray defaultOptions)).
  - reflexivity.
  - apply (bool_decide_unpack _). vm_compute. exact I.
  - reflexivity.
Defined.

Lemma bucket_keys_witness :
  exists m,
    this_caches
      (returned (pluginOf (withCaches (CachesObject sparseSpec) defaultOptions))
         (setAssets globMinimatch globHasMagic
            (pluginOf (withCaches (CachesObject sparseSpec) defaultOptions))
            ["app.js"] [])).1
    = Some m /\
    forall key,
      key ∈ ["main"; "additional"; "optional"] ->
      ((sparseSpec !! key = Some (IsArray [])
        \/ (forall items, sparseSpec !! key <> Some (IsArray items))) ->
       m !! key = None) /\
      (forall cacheKey cache,
         sparseSpec !! key = Some (IsArray (cacheKey :: cache)) ->
         exists bucket, m !! key = Some bucket).
Proof.
  apply (bucket_keys globMinimatch globHasMagic
           (pluginOf (withCaches (CachesObject sparseSpec) defaultOptions))
           ["app.js"] [] sparseSpec _ [patternWarning "*.css"]).
  - reflexivity.
  - vm_compute. reflexivity.
Defined.

(** * Further properties of the code *)

(** ** The default rewrite rule *)

Lemma string_append_nil_r (s : string) : s +:+ "" = s.
Proof.
  induction s as [|c s IH]; [done |].
  change (String c (s +:+ "") = String c s). by rewrite IH.
Qed.

Lemma string_append_assoc (a b c : string) : (a +:+ b) +:+ c = a +:+ (b +:+ c).
Proof.
  induction a as [|x a IH]; [done |].
  change (String x ((a +:+ b) +:+ c) = String x (a +:+ (b +:+ c))).
  by rewrite IH.
Qed.

Lemma afterLiteral_Some (pre s rest : string) :
  afterLiteral pre s = Some rest <-> s = pre +:+ rest.
Proof.
  revert s. induction pre as [|a pre IH]; intros s; simpl.
  - split; [by intros [= ->] | by intros ->].
  - destruct s as [|b s]; [done |].
    destruct (Ascii.eqb_spec a b) as [->|Hne].
    + rewrite IH. split; [by intros -> | by intros [= ->]].
    + split; [done | intros [= ? _]; done].
Qed.

Lemma matchesIndexHtm_spec (s : string) :
  matchesIndexHtm s = true
  <-> exists c tail,
        s = "index" +:+ String c ("htm" +:+ tail) /\
        isLineTerminator c = false /\
        (tail = "" \/ tail = "l").
Proof.
  unfold matchesIndexHtm. split.
  - destruct (afterLiteral "index" s) as [[|c rest]|] eqn:Hindex; try done.
    apply afterLiteral_Some in Hindex as ->.
    intros [Hc Htail]%andb_true_iff. apply negb_true_iff in Hc.
    destruct (afterLiteral "htm" rest) as [tail|] eqn:Hhtm; [| done].
    apply afterLiteral_Some in Hhtm as ->.
    exists c, tail. split; [done |]. split; [done |].
    apply orb_true_iff in Htail as [H | H]; apply String.eqb_eq in H; auto.
  - intros (c & tail & -> & Hc & Htail).
    assert (afterLiteral "index" ("index" +:+ String c ("htm" +:+ tail))
            = Some (String c ("htm" +:+ tail))) as ->.
    { by apply afterLiteral_Some. }
    rewrite Hc. simpl negb. rewrite andb_true_l.
    assert (afterLiteral "htm" ("htm" +:+ tail) = Some tail) as ->.
    { by apply afterLiteral_Some. }
    destruct Htail as [-> | ->]; reflexivity.
Qed.

Lemma lazyDir_unfold (seen s : string) :
  lazyDir seen s
  = if matchesIndexHtm s then Some seen
    else match s with
         | EmptyString => None
         | String c s' => lazyDir (seen +:+ String c EmptyString) s'
         end.
Proof. by destruct s. Qed.

(** The lazy group stops at the first index document: no longer suffix of
    a path that ends in one matches as well. *)
Lemma lazyDir_suffix (tail : string) :
  matchesIndexHtm tail = true ->
  forall dir seen, lazyDir seen (dir +:+ tail) = Some (seen +:+ dir).
Proof.
  intros Htail. induction dir as [|x dir IH]; intros seen.
  - change ("" +:+ tail) with tail.
    rewrite lazyDir_unfold, Htail. by rewrite string_append_nil_r.
  - change (String x dir +:+ tail) with (String x (dir +:+ tail)).
    rewrite lazyDir_unfold.
    destruct (matchesIndexHtm (String x (dir +:+ tail))) eqn:Hlong.
    + exfalso.
      apply matchesIndexHtm_spec in Hlong as (c' & t' & Hlong & _ & Ht').
      apply matchesIndexHtm_spec in Htail as (c & t & -> & _ & Ht).
      pose proof (f_equal String.length Hlong) as Hlen.
      simpl in Hlen. rewrite !string_length_append in Hlen. simpl in Hlen.
      rewrite !string_length_append in Hlen. simpl in Hlen.
      assert (String.length t' <= 1) by (destruct Ht' as [-> | ->]; simpl; lia).
      destruct dir as [|y dir]; [| simpl in Hlen; lia].
      vm_compute in Hlong. congruence.
    + rewrite IH. by rewrite string_append_assoc.
Qed.

Lemma lazyDir_Some (s seen dir : string) :
  lazyDir seen s = Some dir ->
  exists pre tail,
    s = pre +:+ tail /\ dir = seen +:+ pre /\ matchesIndexHtm tail = true.
Proof.
  revert seen. induction s as [|c s IH]; intros seen; rewrite lazyDir_unfold.
  - destruct (matchesIndexHtm "") eqn:Hm; [| done].
    intros [= <-]. exists "", "". by rewrite string_append_nil_r.
  - destruct (matchesIndexHtm (String c s)) eqn:Hm.
    + intros [= <-]. exists "", (String c s). by rewrite string_append_nil_r.
    + intros (pre & tail & -> & -> & Htail)%IH.
      exists (String c pre), tail. by rewrite string_append_assoc.
Qed.

Lemma truthy_true (s : string) : truthy s = true <-> s <> "".
Proof.
  unfold truthy. destruct (String.eqb_spec s ""); split; done.
Qed.

(** X: the default rule maps a path that ends in an index document, at any
    depth, to its directory, and to ["/"] when the directory is empty.
    The document is [index], any one character that is not a line break,
    then [htm] or [html]: the dot of the pattern is not escaped. *)
Theorem defaultRewrites_index (dir : string) (c : ascii) (tail : string) :
  isLineTerminator c = false ->
  tail = "" \/ tail = "l" ->
  defaultRewrites (dir +:+ "index" +:+ String c ("htm" +:+ tail))
  = if truthy dir then dir else "/".
Proof.
  intros Hc Htail. unfold defaultRewrites.
  rewrite (lazyDir_suffix ("index" +:+ String c ("htm" +:+ tail))).
  - reflexivity.
  - apply matchesIndexHtm_spec. by exists c, tail.
Qed.

Lemma defaultRewrites_index_witness :
  defaultRewrites "docs/api/index.html" = "docs/api/" /\
  defaultRewrites "index.htm" = "/" /\
  defaultRewrites "blog/index_html" = "blog/".
Proof.
  split; [| split].
  - apply (defaultRewrites_index "docs/api/" "." "l");
      [reflexivity | right; reflexivity].
  - apply (defaultRewrites_index "" "." "");
      [reflexivity | left; reflexivity].
  - apply (defaultRewrites_index "blog/" "_" "l");
      [reflexivity | right; reflexivity].
Defined.

(** X: the default rule drops no asset: its result is empty only for the
    empty path.  It leaves a path as it is unless the path ends in an
    index document, and then gives the part before it, or ["/"]. *)
Theorem defaultRewrites_keeps (asset : string) :
  (defaultRewrites asset = "" <-> asset = "") /\
  (defaultRewrites asset = asset
   \/ exists dir tail,
        asset = dir +:+ tail /\
        matchesIndexHtm tail = true /\
        defaultRewrites asset = if truthy dir then dir else "/").
Proof.
  unfold defaultRewrites.
  destruct (lazyDir "" asset) as [dir|] eqn:Hlazy.
  - apply lazyDir_Some in Hlazy as (pre & tail & -> & -> & Htail).
    change ("" +:+ pre) with pre.
    split; [| right; by exists pre, tail].
    destruct (truthy pre) eqn:Hpre.
    + apply truthy_true in Hpre. split; [done |].
      intros H. destruct pre; [done | discriminate H].
    + split; [done |]. intros H. destruct pre; [| discriminate H].
      change ("" +:+ tail) with tail in H. subst tail. discriminate Htail.
  - split; [done | by left].
Qed.

(** ** The constructor *)

(** X: the constructor checks the update strategy first and the tools
    second: it throws the strategy error for an unknown strategy whatever
    the tools are, the tools error when the strategy is known and both
    tools are switched off, and otherwise returns a plugin that keeps the
    strategy and exactly the tools that are switched on. *)
Theorem constructor_outcome (o : Options.t) :
  match constructor o with
  | Return this =>
      Options.updateStrategy o ∈ updateStrategies /\
      this_strategy this = Options.updateStrategy o /\
      this_tools this <> [] /\
      (forall name,
         name ∈ this_tools this <->
         (name = "ServiceWorker" /\ Options.ServiceWorker o = true)
         \/ (name = "AppCache" /\ Options.AppCache o = true))
  | Throw msg =>
      ((Options.updateStrategy o ∉ updateStrategies) /\
       msg = "Update strategy must be one of [all,hash,changed]")
      \/ (Options.updateStrategy o ∈ updateStrategies /\
          Options.ServiceWorker o = false /\
          Options.AppCache o = false /\
          msg = "You should have at least one cache service to be specified")
  end.
Proof.
  unfold constructor.
  case_bool_decide as Hstrategy; simpl; [| by left].
  unfold addTool.
  destruct (Options.ServiceWorker o), (Options.AppCache o); simpl.
  - repeat split; try done.
    + intros [-> | [-> | []%elem_of_nil]%elem_of_cons]%elem_of_cons; auto.
    + intros [[-> _] | [-> _]]; [left | right; left].
  - repeat split; try done.
    + intros [-> | []%elem_of_nil]%elem_of_cons; auto.
    + intros [[-> _] | [_ ?]]; [left | done].
  - repeat split; try done.
    + intros [-> | []%elem_of_nil]%elem_of_cons; auto.
    + intros [[_ ?] | [-> _]]; [done | left].
  - right. done.
Qed.

Lemma stripTrailingSlash_append_slash (s : string) :
  stripTrailingSlash (s +:+ "/") = s.
Proof.
  induction s as [|c s IH]; [done |].
  change (String c s +:+ "/") with (String c (s +:+ "/")).
  cbn [stripTrailingSlash]. rewrite IH.
  destruct s as [|d s]; [done |].
  change (String d s +:+ "/") with (String d (s +:+ "/")). done.
Qed.

Lemma truthy_append_slash (s : string) : truthy (s +:+ "/") = true.
Proof. apply truthy_true. by destruct s. Qed.

(** X: a trailing separator on the configured scope makes no difference:
    a scope without one and the same scope with one give plugins with the
    same prefix, which in scoped mode is the scope followed by a single
    separator, and the same normalization. *)
Theorem scope_trailing_slash (o : Options.t) (s : string)
    (this1 this2 : OfflinePlugin) :
  s <> "" ->
  stripTrailingSlash s = s ->
  constructor (withScope s o) = Return this1 ->
  constructor (withScope (s +:+ "/") o) = Return this2 ->
  this_scope this1 = this_scope this2 /\
  (Options.relativePaths o = false -> this_scope this1 = s +:+ "/") /\
  forall key, normalizePath this1 key = normalizePath this2 key.
Proof.
  intros Hs Hstrip H1 H2.
  destruct (constructor_Return _ _ H1) as (_ & Hrel1 & Hsc1 & _).
  destruct (constructor_Return _ _ H2) as (_ & Hrel2 & Hsc2 & _).
  simpl in *.
  apply truthy_true in Hs. rewrite Hs in Hrel1.
  rewrite truthy_append_slash in Hrel2. simpl in *.
  rewrite Hstrip in Hsc1. rewrite stripTrailingSlash_append_slash in Hsc2.
  rewrite Hrel1 in Hsc1. rewrite Hrel2 in Hsc2.
  assert (this_scope this1 = this_scope this2) as Hsame by congruence.
  split; [done |]. split.
  - intros Hrp. by rewrite Hrp in Hsc1.
  - intros key. unfold normalizePath. by rewrite Hrel1, Hrel2, Hsame.
Qed.

Lemma scope_trailing_slash_witness :
  this_scope (pluginOf (withScope "/app" defaultOptions))
  = this_scope (pluginOf (withScope "/app/" defaultOptions)) /\
  this_scope (pluginOf (withScope "/app" defaultOptions)) = "/app/".
Proof.
  assert (Hs : "/app" <> "") by discriminate.
  destruct (scope_trailing_slash defaultOptions "/app"
              (pluginOf (withScope "/app" defaultOptions))
              (pluginOf (withScope "/app/" defaultOptions))
              Hs eq_refl eq_refl eq_refl)
    as (Hsame & Hscope & _).
  split; [exact Hsame | exact (Hscope eq_refl)].
Defined.

(** X: the option [relativePaths] alone selects relative mode, whatever
    the scope: the prefix of the plugin is empty and normalization only
    strips one leading separator. *)
Theorem relativePaths_overrides_scope (o : Options.t) (this : OfflinePlugin) :
  Options.relativePaths o = true ->
  constructor o = Return this ->
  this_relativePaths this = true /\
  this_scope this = "" /\
  forall key, normalizePath this key = stripLeadingSlash key.
Proof.
  intros Hrp Hc.
  destruct (constructor_Return _ _ Hc) as (_ & Hrel & Hsc & _).
  rewrite Hrp, orb_true_r in Hrel. rewrite Hrel in Hsc.
  split; [done |]. split; [done |].
  intros key. unfold normalizePath. by rewrite Hrel.
Qed.

Lemma relativePaths_overrides_scope_witness :
  this_scope (pluginOf (withRelativePaths true (withScope "/app" defaultOptions)))
  = "" /\
  normalizePath
    (pluginOf (withRelativePaths true (withScope "/app" defaultOptions)))
    "/js/app.js"
  = "js/app.js".
Proof.
  destruct (relativePaths_overrides_scope
              (withRelativePaths true (withScope "/app" defaultOptions))
              (pluginOf (withRelativePaths true (withScope "/app" defaultOptions)))
              eq_refl eq_refl) as (_ & Hscope & Hn).
  split; [exact Hscope | rewrite Hn; reflexivity].
Defined.

(** ** Rewriting and normalizing a list *)

Lemma validatePaths_cons this asset assets :
  validatePaths this (asset :: assets)
  = (if truthy (this_rewrite this asset)
     then [normalizePath this (this_rewrite this asset)] else [])
    ++ validatePaths this assets.
Proof.
  unfold validatePaths. simpl map.
  destruct (truthy (this_rewrite this asset)) eqn:Ht.
  - by rewrite filter_cons_True.
  - rewrite filter_cons_False; [done | congruence].
Qed.

Lemma validatePaths_elem this assets p :
  p ∈ validatePaths this assets ->
  exists asset,
    asset ∈ assets /\
    truthy (this_rewrite this asset) = true /\
    p = normalizePath this (this_rewrite this asset).
Proof.
  induction assets as [|asset assets IH].
  - intros H. by apply elem_of_nil in H.
  - rewrite validatePaths_cons. intros [H | H]%elem_of_app.
    + destruct (truthy (this_rewrite this asset)) eqn:Ht;
        [| by apply elem_of_nil in H].
      apply list_elem_of_singleton in H as ->.
      exists asset. split; [left | done].
    + destruct (IH H) as (a & Ha & Ht & Hp).
      exists a. split; [by right | done].
Qed.

Lemma makeRewrite_entry rewrites asset :
  startsWith entryPrefix asset = true -> makeRewrite rewrites asset = "".
Proof. intros H. unfold makeRewrite. by destruct rewrites; rewrite H. Qed.

(** X: an asset whose name begins with the entry prefix [__offline_]
    reaches no output, whatever the rewrite rule is: rewriting and
    normalizing a list gives the same as doing so with these assets taken
    out first. *)
Theorem entry_assets_dropped (o : Options.t) (this : OfflinePlugin)
    (assets : list string) :
  constructor o = Return this ->
  validatePaths this assets
  = validatePaths this
      (filter (fun asset => startsWith entryPrefix asset = false) assets).
Proof.
  intros Hc.
  destruct (constructor_Return _ _ Hc) as (_ & _ & _ & _ & Hrw).
  induction assets as [|asset assets IH]; [done |].
  rewrite validatePaths_cons, IH.
  destruct (startsWith entryPrefix asset) eqn:Hentry.
  - rewrite filter_cons_False by congruence.
    rewrite Hrw, makeRewrite_entry by done. done.
  - rewrite filter_cons_True by done. by rewrite validatePaths_cons.
Qed.

Lemma entry_assets_dropped_witness :
  validatePaths (pluginOf defaultOptions) ["__offline_sw"; "app.js"]
  = validatePaths (pluginOf defaultOptions) ["app.js"].
Proof.
  apply (entry_assets_dropped defaultOptions (pluginOf defaultOptions)
           ["__offline_sw"; "app.js"] eq_refl).
Defined.

(** X: scoped and relative mode differ by the prefix only: for two
    plugins built from options that differ in [relativePaths] alone, with
    a scope that is not empty, the scoped output is the relative output
    with the scope prefix before every path. *)
Theorem scoped_is_prefixed_relative (o : Options.t)
    (scoped relative : OfflinePlugin) (assets : list string) :
  Options.scope o <> "" ->
  constructor (withRelativePaths false o) = Return scoped ->
  constructor (withRelativePaths true o) = Return relative ->
  this_scope relative = "" /\
  validatePaths scoped assets
  = map (fun p => this_scope scoped +:+ p) (validatePaths relative assets).
Proof.
  intros Hscope Hs Hr.
  destruct (constructor_Return _ _ Hs) as (_ & Hrel1 & Hsc1 & _ & Hrw1).
  destruct (constructor_Return _ _ Hr) as (_ & Hrel2 & Hsc2 & _ & Hrw2).
  simpl in *. apply truthy_true in Hscope. rewrite Hscope in Hrel1.
  rewrite orb_true_r in Hrel2. simpl in Hrel1.
  rewrite Hrel2 in Hsc2. split; [done |].
  unfold validatePaths. rewrite Hrw1, Hrw2, map_map.
  apply map_ext. intros key. unfold normalizePath. by rewrite Hrel1, Hrel2.
Qed.

Lemma scoped_is_prefixed_relative_witness :
  validatePaths (pluginOf (withScope "/app" defaultOptions))
    ["js/app.js"; "index.html"]
  = map (fun p => "/app/" +:+ p)
      (validatePaths
         (pluginOf (withRelativePaths true (withScope "/app" defaultOptions)))
         ["js/app.js"; "index.html"]).
Proof.
  assert (Hscope : Options.scope (withScope "/app" defaultOptions) <> "")
    by discriminate.
  exact (proj2 (scoped_is_prefixed_relative (withScope "/app" defaultOptions)
                  (pluginOf (withScope "/app" defaultOptions))
                  (pluginOf (withRelativePaths true
                               (withScope "/app" defaultOptions)))
                  ["js/app.js"; "index.html"] Hscope eq_refl eq_refl)).
Defined.

(** ** The loop that splices the pool *)

Lemma spliceLoop_filter (magic : string -> bool) (todo : list string) :
  forall fuel done matched cacheResult,
    length todo < fuel ->
    spliceLoop fuel magic (length done) (length done + length todo)
      (done ++ todo) matched cacheResult
    = Some (matched || existsb magic todo,
            cacheResult ++ filter (fun asset => magic asset = true) todo,
            done ++ filter (fun asset => magic asset = false) todo).
Proof.
  induction todo as [|asset todo IH]; intros fuel done matched cacheResult Hfuel.
  - destruct fuel as [|fuel]; [simpl in Hfuel; lia |].
    cbn [spliceLoop length]. rewrite Nat.add_0_r, Nat.ltb_irrefl.
    by rewrite orb_false_r, !app_nil_r.
  - destruct fuel as [|fuel]; [simpl in Hfuel; lia |].
    cbn [spliceLoop length].
    assert ((length done <? length done + S (length todo)) = true) as ->
      by (apply Nat.ltb_lt; lia).
    rewrite list_lookup_middle by done.
    destruct (magic asset) eqn:Hm.
    + rewrite delete_middle.
      replace (length done + S (length todo) - 1)
        with (length done + length todo) by lia.
      rewrite IH by (simpl in Hfuel; lia).
      rewrite filter_cons_True by done.
      rewrite filter_cons_False by congruence.
      cbn [existsb]. rewrite Hm, orb_true_r. simpl.
      by rewrite <- app_assoc.
    + replace (length done + 1) with (length (done ++ [asset]))
        by (rewrite length_app; simpl; lia).
      replace (length done + S (length todo))
        with (length (done ++ [asset]) + length todo)
        by (rewrite length_app; simpl; lia).
      rewrite (cons_middle asset done todo), app_assoc.
      rewrite IH by (simpl in Hfuel; lia).
      rewrite filter_cons_False by congruence.
      rewrite filter_cons_True by done.
      cbn [existsb]. rewrite Hm. simpl.
      by rewrite <- app_assoc.
Qed.

(** X: the loop with its counters [i] and [len], which splices a match
    out of the array and steps both counters back, ends after at most one
    iteration per asset and one last test, reads no index outside the
    array, and computes what the scan over the list computes: every asset
    is tested exactly once. *)
Theorem spliceLoop_scanAssets (magic : string -> bool) (assets : list string)
    (matched : bool) (cacheResult : list string) (spare : nat) :
  spliceLoop (S (length assets) + spare) magic 0 (length assets) assets
    matched cacheResult
  = Some (scanAssets magic assets matched cacheResult).
Proof.
  rewrite scanAssets_filter.
  apply (spliceLoop_filter magic assets (S (length assets) + spare) []).
  lia.
Qed.

(** ** The three kinds of selector *)

Lemma indexOf_first (arr : list string) (x : string) (i : nat) :
  indexOf arr x = Some i -> forall j, j < i -> arr !! j <> Some x.
Proof.
  revert i. induction arr as [|y arr IH]; intros i; simpl; [done |].
  destruct (String.eqb_spec y x) as [->|Hne].
  - intros [= <-] j Hj. lia.
  - destruct (indexOf arr x) as [k|]; simpl; [| done].
    intros [= <-] [|j] Hj; simpl; [congruence |].
    apply (IH k); [done | lia].
Qed.

Lemma existsb_false_iff {A : Type} (f : A -> bool) (l : list A) :
  existsb f l = false <-> forall y, y ∈ l -> f y = false.
Proof.
  induction l as [|x l IH]; simpl.
  - split; [intros _ y Hy; by apply elem_of_nil in Hy | done].
  - rewrite orb_false_iff, IH. split.
    + intros [Hx Hl] y [-> | Hy]%elem_of_cons; auto.
    + intros H. split; [apply H; left | intros y Hy; apply H; by right].
Qed.

Section Steps.
Variable minimatch : string -> string -> bool.
Variable hasMagic : string -> option (string -> bool).

(** X: a glob selector takes from the pool every asset that the glob
    matches, in the order of the pool, and leaves the others in their
    order; it adds its warning exactly when it matched nothing.  The
    externals play no part. *)
Theorem glob_selector_step this key env cacheResult cacheKey magic :
  cacheKey <> REST_KEY ->
  hasMagic cacheKey = Some magic ->
  selectCacheKey hasMagic this key (env, cacheResult) cacheKey
  = Return ({| assets := filter (fun asset => magic asset = false) (assets env);
               restSection := restSection env;
               warnings :=
                 if existsb magic (assets env) then warnings env
                 else warnings env ++
                      ["OfflinePlugin: Cache pattern [" +:+ cacheKey +:+
                       "] did not matched any assets"] |},
            cacheResult ++ filter (fun asset => magic asset = true) (assets env)).
Proof.
  intros Hrest Hmagic. unfold selectCacheKey.
  destruct (String.eqb_spec cacheKey REST_KEY) as [|_]; [done |].
  rewrite Hmagic, scanAssets_filter. reflexivity.
Qed.

(** X: a literal selector that names an asset of the pool takes its first
    occurrence out of the pool and appends the name to the bucket, with no
    warning, whether or not the name is an external. *)
Theorem literal_selector_claims this key env cacheResult cacheKey :
  isLiteral hasMagic cacheKey ->
  cacheKey ∈ assets env ->
  exists index,
    assets env !! index = Some cacheKey /\
    (forall j, j < index -> assets env !! j <> Some cacheKey) /\
    selectCacheKey hasMagic this key (env, cacheResult) cacheKey
    = Return ({| assets := delete index (assets env);
                 restSection := restSection env;
                 warnings := warnings env |},
              cacheResult ++ [cacheKey]).
Proof.
  intros [Hrest Hlit] Hpool. unfold selectCacheKey.
  destruct (String.eqb_spec cacheKey REST_KEY) as [|_]; [done |].
  rewrite Hlit.
  destruct (indexOf (assets env) cacheKey) as [index|] eqn:Hindex.
  - exists index. split; [by apply indexOf_Some |].
    split; [by apply indexOf_first | done].
  - by apply indexOf_None in Hindex.
Qed.

(** X: the exclusion filter keeps the order of the assets and keeps
    exactly those that no exclude pattern matches; excludes that are not an
    array, or an empty array, exclude nothing. *)
Theorem applyExcludes_spec excludes assets0 :
  applyExcludes minimatch excludes assets0 `sublist_of` assets0 /\
  forall x,
    x ∈ applyExcludes minimatch excludes assets0
    <-> x ∈ assets0 /\
        forall globs glob,
          excludes = IsArray globs -> glob ∈ globs -> minimatch x glob = false.
Proof.
  split.
  { unfold applyExcludes. destruct excludes as [[|glob globs]|]; try done.
    apply sublist_filter. }
  intros x. unfold applyExcludes.
  destruct excludes as [[|g globs]|].
  - split; [| by intros [? _]].
    intros Hx. split; [done |]. intros globs glob [= <-] Hglob.
    by apply elem_of_nil in Hglob.
  - rewrite list_elem_of_filter, existsb_false_iff. split.
    + intros [Hnone Hx]. split; [done |].
      intros globs' glob [= <-]. apply Hnone.
    + intros [Hx Hnone]. split; [| done].
      intros glob. by apply Hnone.
  - split; [| by intros [? _]].
    intros Hx. split; [done |]. intros globs glob [=].
Qed.
End Steps.

(** ** Runs of [setAssets] *)

Section Runs.
Variable minimatch : string -> string -> bool.
Variable hasMagic : string -> option (string -> bool).



(** X: the bucket map that [setAssets] leaves has no key besides [main],
    [additional] and [optional], whatever other keys the [caches] option
    carries; in simplified mode its only key is [main]. *)
Theorem bucket_map_names this assets0 warnings0 final warnings' :
  setAssets minimatch hasMagic this assets0 warnings0
  = Return (final, warnings') ->
  exists m,
    this_caches final = Some m /\
    (forall key,
       is_Some (m !! key) -> key ∈ ["main"; "additional"; "optional"]) /\
    ((forall caches,
        Options.caches (this_options this) <> CachesObject caches) ->
     forall key, is_Some (m !! key) <-> key = "main").
Proof.
  intros Hrun.
  assert (Hmain : forall bucket key,
    is_Some (({[ "main" := bucket ]} : gmap string (list string)) !! key)
    <-> key = "main").
  { intros bucket key.
    rewrite <- elem_of_dom, dom_singleton_L, elem_of_singleton. done. }
  destruct (Options.caches (this_options this)) as [| |caches] eqn:Hcaches.
  - revert Hrun. unfold setAssets, setAssetsWith. rewrite Hcaches. simpl.
    intros [= <- <-]. simpl. eexists. split; [done |]. split.
    + intros key ->%Hmain. left.
    + intros _ key. apply Hmain.
  - revert Hrun. unfold setAssets, setAssetsWith. rewrite Hcaches. simpl.
    intros [= <- <-]. simpl. eexists. split; [done |]. split.
    + intros key ->%Hmain. left.
    + intros _ key. apply Hmain.
  - unfold setAssets in Hrun.
    destruct (setAssetsWith_Return _ _ _ _ _ _ _ _ _ Hcaches Hrun)
      as (env & handledCaches & Hfold & _ & _ & Hm).
    eexists. split; [exact Hm |]. split.
    + intros key Hkey.
      destruct (decide (key ∈ bucketNames)) as [|Hout]; [done |].
      assert (appendRest (validatePaths this) env handledCaches !! key = None)
        as Hnone.
      { apply appendRest_lookup_None.
        apply (reduce_lookup_None minimatch _ _ _ _ _ _ _ _ _ Hfold key).
        split; [apply lookup_empty | done]. }
      rewrite Hnone in Hkey. by destruct Hkey.
    + intros Hnot. by destruct (Hnot caches).
Qed.
End Runs.

(** ** The final bucket map and the partition *)

Section Final.
Variable minimatch : string -> string -> bool.
Variable hasMagic : string -> option (string -> bool).

(** Every path of a final bucket is the rewritten and normalized form of an
    asset that the partition put into the bucket of that name. *)
Lemma setAssets_entry this assets0 warnings0 final warnings' m key p :
  setAssets minimatch hasMagic this assets0 warnings0
  = Return (final, warnings') ->
  this_caches final = Some m ->
  bucketEntry m key p ->
  exists after partition asset,
    partitionAssets minimatch hasMagic this assets0 warnings0
    = Return (after, warnings') /\
    this_caches after = Some partition /\
    bucketEntry partition key asset /\
    truthy (this_rewrite this asset) = true /\
    p = normalizePath this (this_rewrite this asset).
Proof.
  rewrite setAssets_partitionAssets.
  destruct (partitionAssets minimatch hasMagic this assets0 warnings0)
    as [[after w]|msg]; [| done].
  intros [= <- <-]. unfold validated. simpl.
  destruct (this_caches after) as [partition|] eqn:Hafter; [| done]. simpl.
  intros [= <-] (bucket & Hbucket & Hp).
  rewrite lookup_fmap in Hbucket.
  destruct (partition !! key) as [raw|] eqn:Hraw; [| done].
  injection Hbucket as <-.
  apply validatePaths_elem in Hp as (asset & Hasset & Htruthy & ->).
  exists after, partition, asset.
  split; [done |]. split; [done |]. split; [by exists raw |]. done.
Qed.

(** X: rewriting and normalization decide no bucket: [setAssets] throws
    when the partition throws, and otherwise leaves the same warnings, the
    same [this.assets] and the bucket map of the partition with every
    bucket passed through [validatePaths]. *)
Theorem rewriting_after_partitioning this assets0 warnings0 :
  setAssets minimatch hasMagic this assets0 warnings0
  = match partitionAssets minimatch hasMagic this assets0 warnings0 with
    | Return (after, warnings') =>
        Return
          ({| this_options := this_options after;
              this_assets := this_assets after;
              this_scope := this_scope after;
              this_externals := this_externals after;
              this_strategy := this_strategy after;
              this_relativePaths := this_relativePaths after;
              this_rewrite := this_rewrite after;
              this_caches :=
                (fun m : gmap string (list string) => validatePaths this <$> m)
                  <$> this_caches after;
              this_tools := this_tools after |},
           warnings')
    | Throw msg => Throw msg
    end.
Proof. apply setAssets_partitionAssets. Qed.

(** X: in scoped mode every path of the final bucket map begins with the
    scope prefix of the plugin, which ends in a separator: no path is
    empty or relative. *)
Theorem final_paths_scoped o this assets0 warnings0 final warnings' m key p :
  constructor o = Return this ->
  this_relativePaths this = false ->
  setAssets minimatch hasMagic this assets0 warnings0
  = Return (final, warnings') ->
  this_caches final = Some m ->
  bucketEntry m key p ->
  p <> "" /\
  exists rest,
    p = (stripTrailingSlash (Options.scope o) +:+ "/") +:+ rest.
Proof.
  intros Hc Hrel Hrun Hm Hp.
  destruct (constructor_Return _ _ Hc) as (_ & _ & Hsc & _).
  rewrite Hrel in Hsc.
  destruct (setAssets_entry _ _ _ _ _ _ _ _ Hrun Hm Hp)
    as (_ & _ & asset & _ & _ & _ & _ & ->).
  unfold normalizePath. rewrite Hrel, Hsc. split; [| by eexists].
  intros H. apply (f_equal String.length) in H.
  rewrite !string_length_append in H. simpl in H. lia.
Qed.
End Final.

(** ** No surviving asset is lost *)


Lemma elem_of_allSelectors caches key cacheKey :
  key ∈ bucketNames ->
  cacheKey ∈ bucketSelectors caches key ->
  cacheKey ∈ allSelectors caches.
Proof.
  unfold allSelectors, bucketNames. rewrite !elem_of_app.
  intros [-> | [-> | [-> | []%elem_of_nil]%elem_of_cons]%elem_of_cons]%elem_of_cons;
    auto.
Qed.

Section Coverage.
Variable hasMagic : string -> option (string -> bool).
Variable this : OfflinePlugin.
Variable caches : gmap string maybe_array.
Variable pool0 : list string.

#[local] Abbreviation raw := (fun cacheResult : list string => cacheResult).

(** Every name of the first pool is still in the pool or in a bucket. *)
#[local] Abbreviation Cover env m :=
  (forall x, x ∈ pool0 ->
     x ∈ assets env \/ exists key, bucketEntry m key x).







End Coverage.

Section Conservation.
Variable minimatch : string -> string -> bool.
Variable hasMagic : string -> option (string -> bool).

End Conservation.

(** ** Where the warnings come from *)

Section Provenance.
Variable minimatch : string -> string -> bool.
Variable hasMagic : string -> option (string -> bool).
Variable this : OfflinePlugin.
Variable caches : gmap string maybe_array.
Variable warnings0 : list string.

(** [w] is the warning of a selector of one of the buckets [keys]: of a
    glob, or of a literal that is no external. *)
#[local] Abbreviation Named keys w :=
  (exists key cacheKey,
     key ∈ (keys : list string) /\
     cacheKey ∈ bucketSelectors caches key /\
     ((exists magic,
         hasMagic cacheKey = Some magic /\ w = patternWarning cacheKey)
      \/ (isLiteral hasMagic cacheKey /\
          (cacheKey ∉ this_externals this) /\
          w = assetWarning cacheKey))).

#[local] Abbreviation Told keys env :=
  (exists new,
     warnings env = warnings0 ++ new /\ forall w, w ∈ new -> Named keys w).

Lemma told_add keys env env' w :
  Told keys env ->
  warnings env' = warnings env ++ [w] ->
  Named keys w ->
  Told keys env'.
Proof.
  intros (new & Hw & Hnew) Hw' Hnamed. exists (new ++ [w]). split.
  - by rewrite Hw', Hw, app_assoc.
  - intros w' [H | ->%list_elem_of_singleton]%elem_of_app; auto.
Qed.

Lemma selectCacheKey_told keys key env cacheResult cacheKey env' cacheResult' :
  key ∈ keys ->
  cacheKey ∈ bucketSelectors caches key ->
  Told keys env ->
  selectCacheKey hasMagic this key (env, cacheResult) cacheKey
  = Return (env', cacheResult') ->
  Told keys env'.
Proof.
  intros Hkey Hsel Htold. unfold selectCacheKey.
  destruct (String.eqb_spec cacheKey REST_KEY) as [Hrest|Hrest].
  { destruct (restSection env); [done |]. intros [= <- <-]. exact Htold. }
  destruct (hasMagic cacheKey) as [magic|] eqn:Hmagic.
  - rewrite scanAssets_filter. intros [= <- <-].
    destruct (existsb magic (assets env)); [exact Htold |].
    apply (told_add keys env _ (patternWarning cacheKey)); [done | done |].
    exists key, cacheKey. split; [done |]. split; [done |]. left. eauto.
  - destruct (indexOf (assets env) cacheKey);
      [intros [= <- <-]; exact Htold |].
    destruct (negb (bool_decide (this_externals this = []))
              && bool_decide (cacheKey ∈ this_externals this)) eqn:Hext;
      intros [= <- <-]; [done |].
    apply (told_add keys env _ (assetWarning cacheKey)); [done | done |].
    exists key, cacheKey. split; [done |]. split; [done |]. right.
    split; [done |]. split; [| done].
    intros Hin. apply andb_false_iff in Hext as [Hext | Hext].
    + apply negb_false_iff, bool_decide_eq_true in Hext.
      rewrite Hext in Hin. by apply elem_of_nil in Hin.
    + by apply bool_decide_eq_false in Hext.
Qed.

Lemma reduceKey_told validate keys key env result env' result' :
  key ∈ keys ->
  Told keys env ->
  reduceKey hasMagic this validate caches (env, result) key
  = Return (env', result') ->
  Told keys env'.
Proof.
  intros Hkey Htold. unfold reduceKey.
  destruct (bucketSelectors caches key) as [|cacheKey cache] eqn:Hcache.
  { by intros [= <- <-]. }
  destruct (forEach _ _ (cacheKey :: cache)) as [[env1 cacheResult]|msg]
    eqn:Hloop; simpl; [| done].
  intros [= <- <-].
  apply (forEach_preserves (selectCacheKey hasMagic this key)
           (fun st => Told keys st.1)
           (cacheKey :: cache) (env, []) (env1, cacheResult)); [done | | done].
  intros [env2 cacheResult2] x [env3 cacheResult3] Hx Hinv Hstep. simpl in *.
  eapply selectCacheKey_told; [exact Hkey | | exact Hinv | exact Hstep].
  by rewrite Hcache.
Qed.

Lemma reduce_told validate keys env result env' result' :
  Told keys env ->
  forEach (reduceKey hasMagic this validate caches) (env, result) keys
  = Return (env', result') ->
  Told keys env'.
Proof.
  intros Htold Hloop.
  apply (forEach_preserves (reduceKey hasMagic this validate caches)
           (fun st => Told keys st.1) keys (env, result) (env', result'));
    [done | | done].
  intros [env1 result1] key [env2 result2] Hkey Hinv Hstep. simpl in *.
  by eapply reduceKey_told.
Qed.

(** X: every warning that [setAssets] adds for a bucket specification
    names a selector of one of the three buckets: it is the pattern
    warning of a glob selector, or the missing-asset warning of a literal
    selector that is not among the externals.  The sentinel and the
    exclusion filter add none. *)
Theorem warnings_name_selectors assets0 final warnings' :
  Options.caches (this_options this) = CachesObject caches ->
  setAssets minimatch hasMagic this assets0 warnings0
  = Return (final, warnings') ->
  exists new,
    warnings' = warnings0 ++ new /\
    forall w,
      w ∈ new ->
      exists key cacheKey,
        key ∈ ["main"; "additional"; "optional"] /\
        cacheKey ∈ bucketSelectors caches key /\
        ((exists magic,
            hasMagic cacheKey = Some magic /\
            w = "OfflinePlugin: Cache pattern [" +:+ cacheKey +:+
                "] did not matched any assets")
         \/ (isLiteral hasMagic cacheKey /\
             (cacheKey ∉ this_externals this) /\
             w = "OfflinePlugin: Cache asset [" +:+ cacheKey +:+
                 "] is not found in output assets")).
Proof.
  intros Hcaches Hrun. unfold setAssets in Hrun.
  destruct (setAssetsWith_Return _ _ _ _ _ _ _ _ _ Hcaches Hrun)
    as (env & handledCaches & Hfold & -> & _).
  apply (reduce_told _ bucketNames) in Hfold; [done |].
  exists []. simpl. split; [by rewrite app_nil_r |].
  intros w Hw. by apply elem_of_nil in Hw.
Qed.
End Provenance.

(** ** Specifications of globs only *)

Section Globs.
Variable minimatch : string -> string -> bool.
Variable hasMagic : string -> option (string -> bool).

Lemma partition_keys this assets0 warnings0 caches after warnings' m key x :
  Options.caches (this_options this) = CachesObject caches ->
  partitionAssets minimatch hasMagic this assets0 warnings0
  = Return (after, warnings') ->
  this_caches after = Some m ->
  bucketEntry m key x ->
  key ∈ bucketNames.
Proof.
  intros Hcaches Hrun Hm (bucket & Hbucket & _).
  destruct (setAssetsWith_Return _ _ _ _ _ _ _ _ _ Hcaches Hrun)
    as (env & handledCaches & Hfold & _ & _ & Hm').
  rewrite Hm in Hm'. injection Hm' as ->.
  destruct (decide (key ∈ bucketNames)) as [|Hout]; [done |].
  assert (appendRest (fun leftover => leftover) env handledCaches !! key = None)
    as Hnone.
  { apply appendRest_lookup_None.
    apply (reduce_lookup_None minimatch _ _ _ _ _ _ _ _ _ Hfold key).
    split; [apply lookup_empty | done]. }
  congruence.
Qed.

(** X: when every selector of the three buckets is a glob or the
    sentinel and the asset list names no asset twice, the buckets of the
    partition hold surviving assets only and no two of them share a name:
    an asset goes to the first bucket one of whose globs matches it. *)
Theorem glob_only_partition this assets0 warnings0 caches after warnings' :
  Options.caches (this_options this) = CachesObject caches ->
  (forall cacheKey,
     cacheKey ∈ allSelectors caches ->
     cacheKey = REST_KEY \/ hasMagic cacheKey <> None) ->
  NoDup assets0 ->
  partitionAssets minimatch hasMagic this assets0 warnings0
  = Return (after, warnings') ->
  exists m,
    this_caches after = Some m /\
    bucketsWithin m
      (applyExcludes minimatch (Options.excludes (this_options this)) assets0) /\
    bucketsApart m.
Proof.
  intros Hcaches Hglobs Hnd Hrun.
  destruct (partitionAssets_sound _ _ _ _ _ _ _ _ Hcaches Hrun)
    as (new & m & _ & Hm & Hin & Hapart).
  assert (Hnever : forall key x,
            bucketEntry m key x ->
            ~ passedThrough hasMagic this caches new key x).
  { intros key x Hentry (Hsel & [Hrest Hlit] & _).
    destruct (Hglobs x) as [? | ?]; [| done | done].
    eapply elem_of_allSelectors; [| done].
    by eapply partition_keys. }
  exists m. split; [done |]. split.
  - intros key x Hentry.
    destruct (Hin key x Hentry) as [? | Hpt]; [done |].
    by destruct (Hnever key x Hentry).
  - intros j k x Hjk Hj Hk.
    destruct (Hapart Hnd j k x Hjk Hj Hk) as [Hpt | Hpt].
    + by destruct (Hnever j x Hj).
    + by destruct (Hnever k x Hk).
Qed.
End Globs.

(** ** The further theorems at concrete inputs *)

Lemma glob_selector_step_witness :
  selectCacheKey globHasMagic (pluginOf defaultOptions) "main"
    ({| assets := ["a.css"; "app.js"; "b.css"];
        restSection := None; warnings := [] |}, ["x.js"]) "*.css"
  = Return ({| assets :=
                 filter (fun asset => globMatch "*.css" asset = false)
                   ["a.css"; "app.js"; "b.css"];
               restSection := None;
               warnings :=
                 if existsb (globMatch "*.css") ["a.css"; "app.js"; "b.css"]
                 then []
                 else [] ++
                      ["OfflinePlugin: Cache pattern [" +:+ "*.css" +:+
                       "] did not matched any assets"] |},
            ["x.js"] ++
            filter (fun asset => globMatch "*.css" asset = true)
              ["a.css"; "app.js"; "b.css"]).
Proof.
  apply (glob_selector_step globHasMagic (pluginOf defaultOptions) "main"
           {| assets := ["a.css"; "app.js"; "b.css"];
              restSection := None; warnings := [] |}
           ["x.js"] "*.css" (globMatch "*.css")).
  - discriminate.
  - reflexivity.
Defined.

Lemma literal_selector_claims_witness :
  exists index,
    ["a.js"; "b.js"; "a.js"] !! index = Some "b.js" /\
    (forall j, j < index -> ["a.js"; "b.js"; "a.js"] !! j <> Some "b.js") /\
    selectCacheKey globHasMagic (pluginOf defaultOptions) "main"
      ({| assets := ["a.js"; "b.js"; "a.js"];
          restSection := None; warnings := [] |}, []) "b.js"
    = Return ({| assets := delete index ["a.js"; "b.js"; "a.js"];
                 restSection := None;
                 warnings := [] |},
              [] ++ ["b.js"]).
Proof.
  apply (literal_selector_claims globHasMagic (pluginOf defaultOptions) "main"
           {| assets := ["a.js"; "b.js"; "a.js"];
              restSection := None; warnings := [] |} [] "b.js").
  - split; [discriminate | reflexivity].
  - apply (bool_decide_unpack _). vm_compute. exact I.
Defined.

Lemma bucket_map_names_witness :
  exists m,
    this_caches
      (returned (pluginOf (withCaches (CachesObject literalSpec) defaultOptions))
         (setAssets globMinimatch globHasMagic
            (pluginOf (withCaches (CachesObject literalSpec) defaultOptions))
            ["x.js"; "z.js"] [])).1
    = Some m /\
    (forall key,
       is_Some (m !! key) -> key ∈ ["main"; "additional"; "optional"]) /\
    ((forall caches,
        Options.caches
          (this_options
             (pluginOf (withCaches (CachesObject literalSpec) defaultOptions)))
        <> CachesObject caches) ->
     forall key, is_Some (m !! key) <-> key = "main").
Proof.
  apply (bucket_map_names globMinimatch globHasMagic
           (pluginOf (withCaches (CachesObject literalSpec) defaultOptions))
           ["x.js"; "z.js"] [] _ [assetWarning "y.js"; assetWarning "x.js"]).
  vm_compute. reflexivity.
Defined.

Lemma final_paths_scoped_witness :
  "/app/app.js" <> "" /\
  exists rest,
    "/app/app.js"
    = (stripTrailingSlash (Options.scope (withScope "/app" defaultOptions))
       +:+ "/") +:+ rest.
Proof.
  apply (final_paths_scoped globMinimatch globHasMagic
           (withScope "/app" defaultOptions)
           (pluginOf (withScope "/app" defaultOptions))
           ["app.js"] []
           (returned (pluginOf (withScope "/app" defaultOptions))
              (setAssets globMinimatch globHasMagic
                 (pluginOf (withScope "/app" defaultOptions)) ["app.js"] [])).1
           [] {[ "main" := ["/app/app.js"] ]} "main").
  - reflexivity.
  - reflexivity.
  - vm_compute. reflexivity.
  - vm_compute. reflexivity.
  - exists ["/app/app.js"]. split; [reflexivity |].
    apply list_elem_of_singleton. reflexivity.
Defined.


Lemma warnings_name_selectors_witness :
  exists new,
    [assetWarning "y.js"; assetWarning "x.js"] = [] ++ new /\
    forall w,
      w ∈ new ->
      exists key cacheKey,
        key ∈ ["main"; "additional"; "optional"] /\
        cacheKey ∈ bucketSelectors literalSpec key /\
        ((exists magic,
            globHasMagic cacheKey = Some magic /\
            w = "OfflinePlugin: Cache pattern [" +:+ cacheKey +:+
                "] did not matched any assets")
         \/ (isLiteral globHasMagic cacheKey /\
             (cacheKey ∉ this_externals
                           (pluginOf (withCaches (CachesObject literalSpec)
                                        defaultOptions))) /\
             w = "OfflinePlugin: Cache asset [" +:+ cacheKey +:+
                 "] is not found in output assets")).
Proof.
  apply (warnings_name_selectors globMinimatch globHasMagic
           (pluginOf (withCaches (CachesObject literalSpec) defaultOptions))
           literalSpec [] ["x.js"]
           (returned (pluginOf (withCaches (CachesObject literalSpec)
                                  defaultOptions))
              (setAssets globMinimatch globHasMagic
                 (pluginOf (withCaches (CachesObject literalSpec)
                              defaultOptions)) ["x.js"] [])).1).
  - reflexivity.
  - vm_compute. reflexivity.
Defined.

Lemma glob_only_partition_witness :
  exists m,
    this_caches
      (returned (pluginOf (withCaches (CachesObject sparseSpec) defaultOptions))
         (partitionAssets globMinimatch globHasMagic
            (pluginOf (withCaches (CachesObject sparseSpec) defaultOptions))
            ["a.css"; "app.js"] [])).1
    = Some m /\
    bucketsWithin m
      (applyExcludes globMinimatch (IsArray []) ["a.css"; "app.js"]) /\
    bucketsApart m.
Proof.
  apply (glob_only_partition globMinimatch globHasMagic
           (pluginOf (withCaches (CachesObject sparseSpec) defaultOptions))
           ["a.css"; "app.js"] [] sparseSpec _ []).
  - reflexivity.
  - intros cacheKey Hsel.
    assert (allSelectors sparseSpec = ["*.css"]) as Hall
      by (vm_compute; reflexivity).
    rewrite Hall in Hsel. apply list_elem_of_singleton in Hsel as ->.
    right. vm_compute. discriminate.
  - apply (bool_decide_unpack _). vm_compute. exact I.
  - vm_compute. reflexivity.
Defined.

(** ** The empty path in relative mode *)

Lemma stripLeadingSlash_empty (key : string) :
  stripLeadingSlash key = "" <-> key = "" \/ key = "/".
Proof.
  destruct key as [|c key]; simpl.
  - split; [by left | done].
  - destruct (Ascii.eqb_spec c "/") as [->|Hc].
    + split; [intros ->; by right | intros [? | [= ->]]; done].
    + split; [done | intros [? | [= ? _]]; done].
Qed.

Lemma validatePaths_elem_of this assets asset :
  asset ∈ assets ->
  truthy (this_rewrite this asset) = true ->
  normalizePath this (this_rewrite this asset) ∈ validatePaths this assets.
Proof.
  intros Hasset Htruthy. induction assets as [|a assets IH].
  - by apply elem_of_nil in Hasset.
  - rewrite validatePaths_cons. apply elem_of_app.
    apply elem_of_cons in Hasset as [<- | Hasset].
    + left. rewrite Htruthy. left.
    + right. by apply IH.
Qed.

(** X: empty results of the rewrite rule are filtered out before the
    paths are normalized, not after: in relative mode the output holds the
    empty path exactly when some asset is rewritten to ["/"], as the
    default rule does with a top-level index document. *)
Theorem relative_empty_path (o : Options.t) (this : OfflinePlugin)
    (assets : list string) :
  constructor o = Return this ->
  this_relativePaths this = true ->
  "" ∈ validatePaths this assets
  <-> exists asset, asset ∈ assets /\ this_rewrite this asset = "/".
Proof.
  intros Hc Hrel. split.
  - intros (asset & Hasset & Htruthy & Hp)%validatePaths_elem.
    exists asset. split; [done |].
    unfold normalizePath in Hp. rewrite Hrel in Hp. symmetry in Hp.
    apply stripLeadingSlash_empty in Hp as [Hp | Hp]; [| done].
    rewrite Hp in Htruthy. done.
  - intros (asset & Hasset & Hrw).
    assert (normalizePath this (this_rewrite this asset) = "") as <-.
    { unfold normalizePath. by rewrite Hrel, Hrw. }
    apply validatePaths_elem_of; [done |]. by rewrite Hrw.
Qed.

Lemma relative_empty_path_witness :
  "" ∈ validatePaths (pluginOf (withRelativePaths true defaultOptions))
         ["app.js"; "index.html"].
Proof.
  apply (relative_empty_path (withRelativePaths true defaultOptions)
           (pluginOf (withRelativePaths true defaultOptions))
           ["app.js"; "index.html"] eq_refl eq_refl).
  exists "index.html". split; [| reflexivity].
  apply (bool_decide_unpack _). vm_compute. exact I.
Defined.
